(** * The distribution server of [src/server.js]

    A shallow embedding of the Express handler [GET /distribution/:type] and
    of the pieces it is made of: the [distributions] table, [computeCDF],
    [computeStatistics] and the request handler itself.

    JavaScript numbers are IEEE-754 binary64 values, which is what Rocq's
    primitive [float] is; [+], [-], [*], [/], [Math.sqrt], [Math.abs] and the
    comparisons are the primitive operations.  [Math.exp] and [Math.pow]
    (with the [**] operator, the same abstract operation) are only required
    by ECMAScript to return an implementation-approximated number; they are
    fields of the class [Host], together with the built-in [parseFloat] and
    the numeric values of mathjs's factorial and binomial coefficient, and
    every general theorem holds for every host.

    The handler is modelled up to the object it hands to [res.json]; the
    JSON text Express writes from it is not part of the model. *)

From Stdlib Require Import ZArith List String Ascii Floats Bool Lia.
Import ListNotations.

Set Warnings "-inexact-float".

Local Open Scope float_scope.

(** ** Numbers *)

Abbreviation number := float.

(** [Math.PI] *)
Definition Math_PI : number := 3.141592653589793.

(** [Number.isInteger]: a finite value [m * 2^e] whose fraction bits are all zero. *)
Definition isInteger (x : number) : bool :=
  match Prim2SF x with
  | S754_zero _ => true
  | S754_finite _ m e => ((0 <=? e) || (Z.pos m mod 2 ^ (- e) =? 0))%Z
  | S754_infinity _ | S754_nan => false
  end.

(** [x >= y] and [x > y] of JavaScript, false as soon as one side is NaN. *)
Definition geb (x y : number) : bool := y <=? x.
Definition gtb (x y : number) : bool := y <? x.

Infix ">=?" := geb (at level 70, no associativity) : float_scope.
Infix ">?" := gtb (at level 70, no associativity) : float_scope.

(** ** Outcomes of a computation

    A call returns a value, throws, or (for the one [while] loop of the
    model) runs out of fuel. *)

Inductive exn : Type :=
| TypeError (message : string)
| Error (message : string).

Inductive outcome (A : Type) : Type :=
| Return (a : A)
| Throw (e : exn)
| OutOfFuel.

Arguments Return {A} a.
Arguments Throw {A} e.
Arguments OutOfFuel {A}.

Definition bind {A B : Type} (c : outcome A) (k : A -> outcome B) : outcome B :=
  match c with
  | Return a => k a
  | Throw e => Throw e
  | OutOfFuel => OutOfFuel
  end.

Notation "x <- c ;; k" := (bind c (fun x => k))
  (at level 61, c at next level, right associativity).

(** [array.map(f)] where [f] may throw: the callback runs on the elements in
    order and the first exception escapes. *)
Fixpoint mapM {A B : Type} (f : A -> outcome B) (l : list A) : outcome (list B) :=
  match l with
  | [] => Return []
  | a :: rest =>
      b <- f a ;;
      bs <- mapM f rest ;;
      Return (b :: bs)
  end.

(** ** The functions of mathjs the server calls

    [math.range], [math.factorial] and [math.combinations] come from the
    mathjs package.  Their argument checks and the loop of [range] are
    modelled as the library implements them for plain numbers; the numeric
    value of a factorial or of a binomial coefficient is left to the host
    (the class [Host] below). *)
Module Mathjs.

(** The default comparison tolerances of mathjs ([config.relTol] and
    [config.absTol]; releases with a single [config.epsilon] of 1e-12 decide
    the comparisons of the two ranges below the same way). *)
Definition relTol : number := 1e-12.
Definition absTol : number := 1e-15.

Definition is_finite (x : number) : bool :=
  negb (is_nan x) && negb (is_infinity x).

(** [Math.max] of two numbers. *)
Definition max (x y : number) : number :=
  if is_nan x then x else if is_nan y then y else if x <? y then y else x.

(** [nearlyEqual(a, b, relTol, absTol)] *)
Definition nearlyEqual (a b : number) : bool :=
  if is_nan a || is_nan b then false
  else if negb (is_finite a) || negb (is_finite b) then a =? b
  else if a =? b then true
  else abs (a - b) <=? max (relTol * max (abs a) (abs b)) absTol.

(** [smaller(x, y)]: [x < y] and not nearly equal. *)
Definition smaller (x y : number) : bool :=
  (x <? y) && negb (nearlyEqual x y).

(** The loop of [range(start, end, step)] for a positive step:
    [while (smaller(x, end)) { array.push(x); x = x + step }]. *)
Fixpoint range_loop (fuel : nat) (x end_ step : number) : outcome (list number) :=
  match fuel with
  | O => OutOfFuel
  | S fuel' =>
      if smaller x end_
      then rest <- range_loop fuel' (x + step) end_ step ;; Return (x :: rest)
      else Return []
  end.

(** [range(start, end, step)], with fuel for 1000 iterations. *)
Definition range (start end_ step : number) : outcome (list number) :=
  range_loop 1000 start end_ step.

End Mathjs.

(** ** The server *)

Module Dist.
(** One entry of the [distributions] object.  The functions take the
    caller's positional parameter list (the spread [...params]). *)
Record Descriptor : Type := {
  pdf : number -> list number -> outcome number;
  cdfExpression : string;
  pdfExpression : string;
  mean : list number -> number;
  variance : list number -> number
}.
End Dist.

Module Stats.
(** The object [computeStatistics] returns. *)
Record Statistics : Type := {
  mean : number;
  variance : number;
  stdDev : number
}.
End Stats.

(** The body of a 200 response. *)
Record Payload : Type := {
  xValues : list number;
  pdfValues : list number;
  cdfValues : list number;
  stats : Stats.Statistics;
  pdfExpression : string;
  cdfExpression : string
}.

(** What the handler answers: [res.status(400).json({ error })] or
    [res.json(payload)].  (A request may instead end in an exception that
    escapes the handler: a [Throw] outcome.) *)
Inductive Response : Type :=
| BadRequest (error : string)
| Ok (body : Payload).

(** A value found under a key of the [distributions] object: one of its own
    seven entries, a member inherited from [Object.prototype] (a function or
    an object, truthy, with no [pdf], [mean] or [variance] property), or
    [undefined]. *)
Inductive JSValue : Type :=
| VDescriptor (d : Dist.Descriptor)
| VInherited
| VUndefined.

(** The [i]-th positional argument of a call [f(...params)] whose formal
    parameter has default [dflt]: the default applies when the argument is
    absent ([parseFloat] never yields [undefined]). *)
Definition arg (params : list number) (i : nat) (dflt : number) : number :=
  nth i params dflt.

(** The property names every object inherits from [Object.prototype]. *)
Definition Object_prototype_keys : list string :=
  [ "constructor"; "__defineGetter__"; "__defineSetter__"; "hasOwnProperty";
    "__lookupGetter__"; "__lookupSetter__"; "isPrototypeOf";
    "propertyIsEnumerable"; "toString"; "valueOf"; "__proto__";
    "toLocaleString" ]%string.

Fixpoint assoc {A : Type} (key : string) (obj : list (string * A)) : option A :=
  match obj with
  | [] => None
  | (k, v) :: rest => if String.eqb k key then Some v else assoc key rest
  end.

(** [computeCDF], lines 67-76: the [for] loop, with [cumulativeSum] threaded
    through, then the normalising [map]. *)
Fixpoint cumulative (cumulativeSum : number) (pdfValues : list number) : list number :=
  match pdfValues with
  | [] => []
  | p :: rest =>
      let cumulativeSum := cumulativeSum + p in
      cumulativeSum :: cumulative cumulativeSum rest
  end.

Definition computeCDF (pdfValues : list number) : list number :=
  let cdfValues := cumulative 0 pdfValues in
  (* [cdfValues[cdfValues.length - 1]]; on an empty array it is [undefined],
     a NaN in a division, and the [map] below does not run *)
  let total := last cdfValues nan in
  map (fun val => val / total) cdfValues.

(** [total], line 74: the last running sum, [undefined] (a NaN in the
    division) on an empty array. *)
Definition total (pdfValues : list number) : number :=
  last (cumulative 0 pdfValues) nan.

(** The functions the host provides: [Math.exp], [Math.pow] (also the [**]
    operator), [parseFloat], and the values mathjs computes for [n!] and for
    [C(n, k)] once the arguments passed its checks. *)
Class Host : Type := {
  Math_exp : number -> number;
  Math_pow : number -> number -> number;
  parseFloat : string -> number;
  factorial_value : number -> number;
  combinations_value : number -> number -> number
}.

Section Server.

Context {host : Host}.

Infix "**" := Math_pow (at level 30, right associativity).

(** [math.factorial(n)] on a number: negative arguments are refused. *)
Definition math_factorial (n : number) : outcome number :=
  if n <? 0 then Throw (Error "Value must be non-negative")
  else Return (factorial_value n).

(** [math.combinations(n, k)] on numbers: both must be non-negative
    integers and [k] must not exceed [n]. *)
Definition math_combinations (n k : number) : outcome number :=
  if negb (isInteger n) || (n <? 0)
  then Throw (TypeError "Positive integer value expected in function combinations")
  else if negb (isInteger k) || (k <? 0)
  then Throw (TypeError "Positive integer value expected in function combinations")
  else if k >? n
  then Throw (TypeError "k must be less than or equal to n")
  else Return (combinations_value n k).

(** *** [distributions], lines 8-65 *)

Definition normal : Dist.Descriptor := {|
  Dist.pdf := fun x params =>
    let mu := arg params 0 0 in
    let sigma := arg params 1 1 in
    Return ((1 / (sigma * sqrt (2 * Math_PI))) *
            Math_exp (-0.5 * ((x - mu) / sigma) ** 2));
  Dist.cdfExpression := "0.5 * (1 + erf((x - μ) / (σ * sqrt(2))))";
  Dist.pdfExpression := "(1 / (σ√(2π))) * exp(-0.5 * ((x - μ) / σ)^2)";
  Dist.mean := fun params => let mu := arg params 0 0 in mu;
  Dist.variance := fun params => let sigma := arg params 0 1 in sigma ** 2
|}.

Definition uniform : Dist.Descriptor := {|
  Dist.pdf := fun x params =>
    let a := arg params 0 0 in
    let b := arg params 1 1 in
    Return (if (x >=? a) && (x <=? b) then 1 / (b - a) else 0);
  Dist.cdfExpression := "((x - a) / (b - a)) for a ≤ x ≤ b";
  Dist.pdfExpression := "1 / (b - a) for a ≤ x ≤ b";
  Dist.mean := fun params =>
    let a := arg params 0 0 in
    let b := arg params 1 1 in
    (a + b) / 2;
  Dist.variance := fun params =>
    let a := arg params 0 0 in
    let b := arg params 1 1 in
    (b - a) ** 2 / 12
|}.

Definition exponential : Dist.Descriptor := {|
  Dist.pdf := fun x params =>
    let lambda := arg params 0 1 in
    Return (if x >=? 0 then lambda * Math_exp (- lambda * x) else 0);
  Dist.cdfExpression := "1 - exp(-λx) for x ≥ 0";
  Dist.pdfExpression := "λ * exp(-λx) for x ≥ 0";
  Dist.mean := fun params => let lambda := arg params 0 1 in 1 / lambda;
  Dist.variance := fun params => let lambda := arg params 0 1 in 1 / lambda ** 2
|}.

Definition poisson : Dist.Descriptor := {|
  Dist.pdf := fun x params =>
    let lambda := arg params 0 3 in
    if isInteger x && (x >=? 0)
    then f <- math_factorial x ;;
         Return ((Math_exp (- lambda) * Math_pow lambda x) / f)
    else Return 0;
  Dist.cdfExpression := "Σ (e^(-λ) * λ^k / k!) from k=0 to x";
  Dist.pdfExpression := "(e^(-λ) * λ^x) / x!";
  Dist.mean := fun params => let lambda := arg params 0 3 in lambda;
  Dist.variance := fun params => let lambda := arg params 0 3 in lambda
|}.

Definition rayleigh : Dist.Descriptor := {|
  Dist.pdf := fun x params =>
    let sigma := arg params 0 1 in
    Return (if x >=? 0
            then (x / sigma ** 2) * Math_exp (- (x ** 2) / (2 * sigma ** 2))
            else 0);
  Dist.cdfExpression := "1 - exp(-x^2 / (2 * σ^2)) for x ≥ 0";
  Dist.pdfExpression := "(x / σ^2) * exp(-x^2 / (2 * σ^2)) for x ≥ 0";
  Dist.mean := fun params =>
    let sigma := arg params 0 1 in sigma * sqrt (Math_PI / 2);
  Dist.variance := fun params =>
    let sigma := arg params 0 1 in (2 - Math_PI / 2) * sigma ** 2
|}.

Definition laplacian : Dist.Descriptor := {|
  Dist.pdf := fun x params =>
    let mu := arg params 0 0 in
    let b := arg params 1 1 in
    Return ((1 / (2 * b)) * Math_exp (- abs (x - mu) / b));
  Dist.cdfExpression := "0.5 * (1 + sign(x - μ) * (1 - exp(-|x - μ| / b)))";
  Dist.pdfExpression := "(1 / (2 * b)) * exp(-|x - μ| / b)";
  Dist.mean := fun params => let mu := arg params 0 0 in mu;
  Dist.variance := fun params => let b := arg params 0 1 in 2 * b ** 2
|}.

Definition binomial : Dist.Descriptor := {|
  Dist.pdf := fun x params =>
    let n := arg params 0 10 in
    let p := arg params 1 0.5 in
    c <- math_combinations n x ;;
    Return (c * Math_pow p x * Math_pow (1 - p) (n - x));
  Dist.cdfExpression := "Σ (nCx * p^x * (1-p)^(n-x)) from x=0 to x";
  Dist.pdfExpression := "nCx * p^x * (1-p)^(n-x)";
  Dist.mean := fun params =>
    let n := arg params 0 10 in
    let p := arg params 1 0.5 in
    n * p;
  Dist.variance := fun params =>
    let n := arg params 0 10 in
    let p := arg params 1 0.5 in
    n * p * (1 - p)
|}.

(** The object literal, as the ordered list of its own properties. *)
Definition distributions : list (string * Dist.Descriptor) :=
  [ ("normal", normal); ("uniform", uniform); ("exponential", exponential);
    ("poisson", poisson); ("rayleigh", rayleigh); ("laplacian", laplacian);
    ("binomial", binomial) ]%string.

(** [distributions[type]]: an own property first, then the prototype. *)
Definition distributions_at (type : string) : JSValue :=
  match assoc type distributions with
  | Some d => VDescriptor d
  | None =>
      if existsb (String.eqb type) Object_prototype_keys
      then VInherited else VUndefined
  end.

(** Calling a member of [distributions[type]]: on an inherited value the
    member is [undefined] and the call throws. *)
Definition call_pdf (v : JSValue) (x : number) (params : list number) : outcome number :=
  match v with
  | VDescriptor d => Dist.pdf d x params
  | _ => Throw (TypeError "distributions[type].pdf is not a function")
  end.

(** [computeStatistics], lines 78-89. *)
Definition computeStatistics (distributionType : string) (params : list number)
  : outcome Stats.Statistics :=
  match distributions_at distributionType with
  | VDescriptor dist =>
      let mean := Dist.mean dist params in
      let variance := Dist.variance dist params in
      let stdDev := sqrt variance in
      Return {| Stats.mean := mean; Stats.variance := variance; Stats.stdDev := stdDev |}
  | VInherited => Throw (TypeError "dist.mean is not a function")
  | VUndefined => Throw (TypeError "Cannot read properties of undefined (reading 'mean')")
  end.

(** *** The handler of [GET /distribution/:type], lines 95-121

    [query] is [req.query] as the list of its properties in the order
    [Object.keys] enumerates them. *)

Definition Object_keys {A : Type} (obj : list (string * A)) : list string :=
  map fst obj.

(** [parseFloat(req.query[key])]; a missing property reads as
    [undefined], which parses to NaN. *)
Definition parse_param (query : list (string * string)) (key : string) : number :=
  match assoc key query with
  | Some v => parseFloat v
  | None => nan
  end.

Definition request_params (query : list (string * string)) : list number :=
  map (parse_param query) (Object_keys query).

Definition is_discrete (type : string) : bool :=
  String.eqb type "poisson" || String.eqb type "binomial".

Definition sample_points (type : string) : outcome (list number) :=
  if is_discrete type
  then Mathjs.range 0 20 1
  else Mathjs.range (-5) 5 0.1.

Definition handler (type : string) (query : list (string * string)) : outcome Response :=
  match distributions_at type with
  | VUndefined => Return (BadRequest "Invalid distribution type")
  | dist =>
      let params := request_params query in
      xValues <- sample_points type ;;
      pdfValues <- mapM (fun x => call_pdf dist x params) xValues ;;
      let cdfValues := computeCDF pdfValues in
      stats <- computeStatistics type params ;;
      Return (Ok {|
        xValues := xValues;
        pdfValues := pdfValues;
        cdfValues := cdfValues;
        stats := stats;
        pdfExpression :=
          match dist with VDescriptor d => Dist.pdfExpression d | _ => "" end;
        cdfExpression :=
          match dist with VDescriptor d => Dist.cdfExpression d | _ => "" end
      |})
  end.

End Server.

(** ** A reference host

    One choice of the host functions, used to run the model on concrete
    requests.  [exp] and [pow] are approximations of the kind ECMAScript
    allows; on the integral exponents the server passes ([2], a sampled
    integer [x], or [n - x] with [n] and [x] accepted by
    [math.combinations]) [pow] multiplies, which is exact whenever the power
    is a binary64 number.  Factorials and binomial coefficients are the exact
    integers, rounded to a number.  [parseFloat] reads a decimal literal with
    an optional sign and fraction and ignores what follows it (exact for
    literals of up to 15 digits). *)
Module Reference.

Definition of_Z (z : Z) : number := SF2Prim (binary_normalize prec emax z 0 false).

(** The integer a number denotes, when it is one. *)
Definition to_Z (x : number) : Z :=
  match Prim2SF x with
  | S754_finite s m e =>
      let a := if (0 <=? e)%Z then (Z.pos m * 2 ^ e)%Z else (Z.pos m / 2 ^ (- e))%Z in
      if s then (- a)%Z else a
  | _ => 0%Z
  end.

(** [e^r] for a reduced argument, by its Taylor polynomial in Horner form. *)
Fixpoint exp_series (r : number) (k : nat) (acc : number) : number :=
  match k with
  | O => acc
  | S k' => exp_series r k' (1 + r * acc / of_Z (Z.of_nat k))
  end.

Definition ln2 : number := 0x1.62e42fefa39efp-1.

(** [Math.exp]: [e^x = 2^k * e^r] with [k] the integer nearest [x / ln 2]. *)
Definition exp (x : number) : number :=
  if is_nan x then nan
  else if 710 <? x then infinity
  else if x <? -746 then 0
  else
    let magic := 0x1.8p+52 in
    let k := (x / ln2 + magic) - magic in
    let r := x - k * ln2 in
    Z.ldexp (exp_series r 20 1) (to_Z k).

(** [atanh t = t + t^3/3 + t^5/5 + ...], the terms from degree [2 k - 1] down. *)
Fixpoint atanh_series (t2 : number) (k : nat) (acc : number) : number :=
  match k with
  | O => acc
  | S k' => atanh_series t2 k' (1 / of_Z (2 * Z.of_nat k - 1) + t2 * acc)
  end.

(** The natural logarithm of [x >= 0]: [x = m * 2^e] with [m] in [0.5, 1)
    and [ln m = 2 atanh ((m - 1) / (m + 1))]. *)
Definition ln (x : number) : number :=
  if x =? 0 then neg_infinity
  else if is_infinity x then infinity
  else
    let '(m, e) := Z.frexp x in
    let t := (m - 1) / (m + 1) in
    of_Z e * ln2 + 2 * (t * atanh_series (t * t) 30 0).

Fixpoint pow_pos (x : number) (n : positive) : number :=
  match n with
  | xH => x
  | xO p => let h := pow_pos x p in h * h
  | xI p => let h := pow_pos x p in x * (h * h)
  end.

(** [Math.pow] and [**]: repeated multiplication on an integral exponent,
    [exp (y * ln x)] otherwise. *)
Definition pow (x y : number) : number :=
  if isInteger y
  then match to_Z y with
       | Z0 => 1
       | Zpos n => pow_pos x n
       | Zneg n => 1 / pow_pos x n
       end
  else if is_nan x || is_nan y then nan
  else if x <? 0 then (if is_infinity y then exp (y * ln (abs x)) else nan)
  else exp (y * ln x).

Fixpoint factorial_nat (n : nat) : Z :=
  match n with
  | O => 1
  | S n' => Z.of_nat n * factorial_nat n'
  end.

Definition factorial (n : number) : number :=
  of_Z (factorial_nat (Z.to_nat (to_Z n))).

Fixpoint binom (n : Z) (k : nat) : Z :=
  match k with
  | O => 1
  | S k' => (binom n k' * (n - Z.of_nat k') / Z.of_nat k)%Z
  end.

Definition combinations (n k : number) : number :=
  of_Z (binom (to_Z n) (Z.to_nat (to_Z k))).

(** Decimal digits of a literal, most significant first. *)
Definition digit (c : Ascii.ascii) : option Z :=
  let n := Z.of_nat (Ascii.nat_of_ascii c) in
  if ((48 <=? n) && (n <=? 57))%Z then Some (n - 48)%Z else None.

Fixpoint digits (s : string) (acc : Z) (count : nat) : Z * nat * string :=
  match s with
  | String c rest =>
      match digit c with
      | Some d => digits rest (10 * acc + d)%Z (S count)
      | None => (acc, count, s)
      end
  | EmptyString => (acc, count, s)
  end.

Definition unsigned (s : string) : number :=
  let '(int, n_int, rest) := digits s 0%Z 0%nat in
  match rest with
  | String "."%char frac =>
      let '(all, n_frac, _) := digits frac int 0%nat in
      if ((n_int + n_frac)%nat =? 0)%nat then nan
      else of_Z all / of_Z (10 ^ Z.of_nat n_frac)
  | _ => if (n_int =? 0)%nat then nan else of_Z int
  end.

Definition parse_decimal (s : string) : number :=
  match s with
  | String "-"%char rest => - unsigned rest
  | String "+"%char rest => unsigned rest
  | _ => unsigned s
  end.

Definition host : Host := {|
  Math_exp := exp;
  Math_pow := pow;
  parseFloat := parse_decimal;
  factorial_value := factorial;
  combinations_value := combinations
|}.

(** The handler run on the reference host. *)
Definition handler : string -> list (string * string) -> outcome Response :=
  @handler host.

End Reference.

(** ** Specification-side definitions

    The words of the specification, to compare with the code above. *)

(** [n] sample points from [start] in steps of [step]. *)
Fixpoint steps (start step : number) (n : nat) : list number :=
  match n with
  | O => []
  | S n' => start :: steps (start + step) step n'
  end.

(** The running cumulative sum at index [i]: the first [i + 1] densities
    added up in sample order. *)
Definition running_sum (pdfValues : list number) (i : nat) : number :=
  fold_left PrimFloat.add (firstn (S i) pdfValues) 0.

(** A sequence of numbers is non-decreasing: each element is [<=] the next. *)
Fixpoint non_decreasing (l : list number) : Prop :=
  match l with
  | x :: (y :: _) as rest => (x <=? y) = true /\ non_decreasing rest
  | _ => True
  end.

(** A density is [>= 0] (in particular it is not NaN). *)
Definition nonneg (p : number) : Prop := (0 <=? p) = true.

(** The integers 0..19. *)
Definition integers_0_19 : list number :=
  [0; 1; 2; 3; 4; 5; 6; 7; 8; 9; 10; 11; 12; 13; 14; 15; 16; 17; 18; 19].

(** The documented defaults of each function, in positional order: those of
    the density (the table of the specification), of [mean] and of
    [variance] (the defaults in their own signatures). *)
Definition pdf_defaults (type : string) : list number :=
  if String.eqb type "normal" then [0; 1]
  else if String.eqb type "uniform" then [0; 1]
  else if String.eqb type "exponential" then [1]
  else if String.eqb type "poisson" then [3]
  else if String.eqb type "rayleigh" then [1]
  else if String.eqb type "laplacian" then [0; 1]
  else if String.eqb type "binomial" then [10; 0.5]
  else [].

Definition mean_defaults (type : string) : list number :=
  if String.eqb type "normal" then [0]
  else if String.eqb type "uniform" then [0; 1]
  else if String.eqb type "exponential" then [1]
  else if String.eqb type "poisson" then [3]
  else if String.eqb type "rayleigh" then [1]
  else if String.eqb type "laplacian" then [0]
  else if String.eqb type "binomial" then [10; 0.5]
  else [].

Definition variance_defaults (type : string) : list number :=
  if String.eqb type "normal" then [1]
  else if String.eqb type "uniform" then [0; 1]
  else if String.eqb type "exponential" then [1]
  else if String.eqb type "poisson" then [3]
  else if String.eqb type "rayleigh" then [1]
  else if String.eqb type "laplacian" then [1]
  else if String.eqb type "binomial" then [10; 0.5]
  else [].

(** A parameter list completed with the defaults of the missing trailing
    parameters and followed by extra values. *)
Definition completed (params defaults extra : list number) : list number :=
  (params ++ skipn (List.length params) defaults) ++ extra.

(** The seven names of the enumeration. *)
Definition kinds : list string :=
  [ "normal"; "uniform"; "exponential"; "poisson"; "rayleigh"; "laplacian";
    "binomial" ]%string.

(** ** Rounding, as the specification of binary64 arithmetic computes it

    [SpecFloat] gives [+] and [/] by an exact integer computation followed
    by [binary_round_aux].  The definitions below name the pieces of that
    last step on a non-negative rational [N / B * 2^e]. *)

(** Round to nearest, ties to even, of the rational [N / B]. *)
Definition rne (N B : Z) : Z :=
  let q := (N / B)%Z in
  let r := (N mod B)%Z in
  if (r =? 0)%Z then q
  else match (2 * r ?= B)%Z with
       | Lt => q
       | Eq => if Z.even q then q else (q + 1)%Z
       | Gt => (q + 1)%Z
       end.

(** Where [N / B] lies between its floor and the next integer. *)
Definition loc_of (N B : Z) : location :=
  let r := (N mod B)%Z in
  if (r =? 0)%Z then loc_Exact else loc_Inexact (2 * r ?= B)%Z.

(** The last stage of [binary_round_aux]: renormalise the rounded mantissa
    and detect overflow. *)
Definition finish (m E : Z) : spec_float :=
  let '(mrs, e) := shr_fexp prec emax m E loc_Exact in
  match shr_m mrs with
  | Z0 => S754_zero false
  | Zpos m => if (e <=? emax - prec)%Z then S754_finite false m e else S754_infinity false
  | Zneg _ => S754_nan
  end.

(** The rounding of the rational [N / B * 2^e], as [binary_round_aux]
    computes it from the quotient and its location. *)
Definition round_ratio (N B e : Z) : spec_float :=
  binary_round_aux prec emax false (N / B)%Z e (loc_of N B).

(** How far [binary_round_aux] shifts the quotient right. *)
Definition shift (N B e : Z) : Z :=
  (fexp prec emax (Zdigits2 (N / B) + e) - e)%Z.

(** The caller supplies enough digits: the quotient is shifted right, never left. *)
Definition enough_digits (N B e : Z) : Prop := (0 <= shift N B e)%Z.

(** The shapes of a number that is [>= 0]. *)
Inductive nonneg_shape : spec_float -> Prop :=
| shape_zero s : nonneg_shape (S754_zero s)
| shape_infinity : nonneg_shape (S754_infinity false)
| shape_finite m e : bounded prec emax m e = true -> nonneg_shape (S754_finite false m e).

(** * Theorems *)

(** ** Facts about rounding *)

Module Rounding.

Local Open Scope Z_scope.

Lemma rne_loc N B : round_nearest_even (N / B) (loc_of N B) = rne N B.
Proof.
  unfold rne, loc_of, round_nearest_even.
  destruct (N mod B =? 0); [reflexivity|].
  destruct (2 * (N mod B) ?= B); reflexivity.
Qed.

Lemma loc_of_record m l : loc_of_shr_record (shr_record_of_loc m l) = l.
Proof. destruct l as [|[]]; reflexivity. Qed.

Lemma shr_m_record m l : shr_m (shr_record_of_loc m l) = m.
Proof. destruct l as [|[]]; reflexivity. Qed.

Lemma div_mod_double N B :
  0 < B ->
  N / (2 * B) = (N / B) / 2 /\
  N mod (2 * B) = (N / B) mod 2 * B + N mod B.
Proof.
  intros HB.
  pose proof (Z.div_mod N B ltac:(lia)) as E1.
  pose proof (Z.mod_pos_bound N B HB) as B1.
  pose proof (Z.div_mod (N / B) 2 ltac:(lia)) as E2.
  pose proof (Z.mod_pos_bound (N / B) 2 ltac:(lia)) as B2.
  set (q := N / B) in *. set (r := N mod B) in *.
  set (h := q / 2) in *. set (b := q mod 2) in *.
  assert (E : N = (2 * B) * h + (b * B + r)) by (rewrite E1, E2; ring).
  assert (Bd : 0 <= b * B + r < 2 * B) by nia.
  split.
  - symmetry. apply (Z.div_unique_pos N (2 * B) h (b * B + r)); assumption.
  - symmetry. apply (Z.mod_unique_pos N (2 * B) h (b * B + r)); assumption.
Qed.

(** One step of the shift: the record of [N / B] becomes that of [N / (2 B)]. *)
Lemma shr_1_spec mrs N B :
  0 <= N -> 0 < B ->
  shr_m mrs = N / B -> loc_of_shr_record mrs = loc_of N B ->
  shr_m (shr_1 mrs) = N / (2 * B) /\
  loc_of_shr_record (shr_1 mrs) = loc_of N (2 * B).
Proof.
  intros HN HB Hm Hl.
  destruct (div_mod_double N B HB) as [Ed Em].
  pose proof (Z.mod_pos_bound N B HB) as Br.
  pose proof (Z.div_pos N B HN HB) as Hq.
  pose proof (Z.div_mod (N / B) 2 ltac:(lia)) as E2.
  pose proof (Z.mod_pos_bound (N / B) 2 ltac:(lia)) as B2.
  unfold loc_of in *. rewrite Ed, Em. rewrite <- Hm in *.
  set (r := N mod B) in *.
  destruct mrs as [m rb sb]. cbn [shr_m] in *.
  set (h := m / 2) in *. set (b := m mod 2) in *.
  clearbody r h b.
  assert (Hs : orb rb sb = negb (r =? 0)).
  { cbn [loc_of_shr_record] in Hl.
    destruct (Z.eqb_spec r 0); destruct rb, sb; simpl in *; try reflexivity; try discriminate. }
  assert (Hstep : shr_1 {| shr_m := m; shr_r := rb; shr_s := sb |} =
                  {| shr_m := h; shr_r := (b =? 1); shr_s := negb (r =? 0) |}).
  { unfold shr_1. rewrite Hs.
    destruct m as [|[p|p|]|p]; try lia.
    - replace h with 0 by lia. replace b with 0 by lia. reflexivity.
    - rewrite Pos2Z.inj_xI in E2. replace h with (Z.pos p) by lia. replace b with 1 by lia. reflexivity.
    - rewrite Pos2Z.inj_xO in E2. replace h with (Z.pos p) by lia. replace b with 0 by lia. reflexivity.
    - replace h with 0 by lia. replace b with 1 by lia. reflexivity. }
  rewrite Hstep. cbn [shr_m loc_of_shr_record]. split; [reflexivity|].
  assert (Hb : b = 0 \/ b = 1) by lia.
  destruct Hb as [-> | ->]; cbn [Z.eqb];
    destruct (Z.eqb_spec r 0) as [Hr|Hr]; cbn [negb].
  - destruct (Z.eqb_spec (0 * B + r) 0); [reflexivity|lia].
  - destruct (Z.eqb_spec (0 * B + r) 0); [lia|].
    destruct (Z.compare_spec (2 * (0 * B + r)) (2 * B)); try lia. reflexivity.
  - destruct (Z.eqb_spec (1 * B + r) 0); [lia|].
    destruct (Z.compare_spec (2 * (1 * B + r)) (2 * B)); try lia. reflexivity.
  - destruct (Z.eqb_spec (1 * B + r) 0); [lia|].
    destruct (Z.compare_spec (2 * (1 * B + r)) (2 * B)); try lia. reflexivity.
Qed.

Lemma pow2_xI p : 2 ^ Z.pos p~1 = 2 * 2 ^ Z.pos p * 2 ^ Z.pos p.
Proof.
  replace (Z.pos p~1) with (Z.pos p + Z.pos p + 1) by lia.
  rewrite !Z.pow_add_r by lia. rewrite Z.pow_1_r. ring.
Qed.

Lemma pow2_xO p : 2 ^ Z.pos p~0 = 2 ^ Z.pos p * 2 ^ Z.pos p.
Proof.
  replace (Z.pos p~0) with (Z.pos p + Z.pos p) by lia.
  rewrite !Z.pow_add_r by lia. ring.
Qed.

Lemma iter_shr_spec p : forall mrs N B,
  0 <= N -> 0 < B ->
  shr_m mrs = N / B -> loc_of_shr_record mrs = loc_of N B ->
  shr_m (iter_pos shr_1 p mrs) = N / (B * 2 ^ Z.pos p) /\
  loc_of_shr_record (iter_pos shr_1 p mrs) = loc_of N (B * 2 ^ Z.pos p).
Proof.
  induction p as [p IH|p IH|]; intros mrs N B HN HB Hm Hl; cbn [iter_pos].
  - destruct (shr_1_spec mrs N B HN HB Hm Hl) as [Hm1 Hl1].
    assert (H2 : 0 < 2 ^ Z.pos p) by (apply Z.pow_pos_nonneg; lia).
    destruct (IH _ N (2 * B) HN ltac:(lia) Hm1 Hl1) as [Hm2 Hl2].
    destruct (IH _ N (2 * B * 2 ^ Z.pos p) HN ltac:(nia) Hm2 Hl2) as [Hm3 Hl3].
    replace (B * 2 ^ Z.pos p~1) with (2 * B * 2 ^ Z.pos p * 2 ^ Z.pos p).
    + split; assumption.
    + rewrite pow2_xI. ring.
  - assert (H2 : 0 < 2 ^ Z.pos p) by (apply Z.pow_pos_nonneg; lia).
    destruct (IH _ N B HN HB Hm Hl) as [Hm2 Hl2].
    destruct (IH _ N (B * 2 ^ Z.pos p) HN ltac:(nia) Hm2 Hl2) as [Hm3 Hl3].
    replace (B * 2 ^ Z.pos p~0) with (B * 2 ^ Z.pos p * 2 ^ Z.pos p).
    + split; assumption.
    + rewrite pow2_xO. ring.
  - replace (B * 2 ^ 1) with (2 * B) by (rewrite Z.pow_1_r; ring).
    apply shr_1_spec; assumption.
Qed.

Lemma shr_fexp_spec N B e :
  0 <= N -> 0 < B ->
  let n := fexp prec emax (Zdigits2 (N / B) + e) - e in
  0 <= n ->
  exists mrs,
    shr_fexp prec emax (N / B) e (loc_of N B) = (mrs, e + n) /\
    shr_m mrs = N / (B * 2 ^ n) /\
    loc_of_shr_record mrs = loc_of N (B * 2 ^ n).
Proof.
  intros HN HB n Hn. unfold shr_fexp. fold n. unfold shr.
  destruct n as [|p|p] eqn:En; try lia.
  - eexists. split; [rewrite Z.add_0_r; reflexivity|].
    rewrite shr_m_record, loc_of_record, Z.pow_0_r, Z.mul_1_r. split; reflexivity.
  - eexists. split; [reflexivity|].
    apply iter_shr_spec; auto using shr_m_record, loc_of_record.
Qed.

Lemma binary_round_aux_rne N B e :
  0 <= N -> 0 < B ->
  let n := fexp prec emax (Zdigits2 (N / B) + e) - e in
  0 <= n ->
  binary_round_aux prec emax false (N / B) e (loc_of N B) =
  finish (rne N (B * 2 ^ n)) (e + n).
Proof.
  intros HN HB n Hn.
  destruct (shr_fexp_spec N B e HN HB Hn) as (mrs & E & Hm & Hl). fold n in E, Hm, Hl.
  unfold binary_round_aux, finish. rewrite E, Hm, Hl, rne_loc. reflexivity.
Qed.

(** *** Digits *)

Lemma digits2_pos_bounds p :
  2 ^ (Z.pos (digits2_pos p) - 1) <= Z.pos p < 2 ^ Z.pos (digits2_pos p).
Proof.
  induction p as [p IH|p IH|]; cbn [digits2_pos].
  - rewrite Pos2Z.inj_succ.
    replace (Z.succ (Z.pos (digits2_pos p)) - 1) with (Z.succ (Z.pos (digits2_pos p) - 1)) by lia.
    rewrite !Z.pow_succ_r by lia. lia.
  - rewrite Pos2Z.inj_succ.
    replace (Z.succ (Z.pos (digits2_pos p)) - 1) with (Z.succ (Z.pos (digits2_pos p) - 1)) by lia.
    rewrite !Z.pow_succ_r by lia. lia.
  - simpl. lia.
Qed.

Lemma Zdigits2_nonneg m : 0 <= Zdigits2 m.
Proof. destruct m; simpl; lia. Qed.

Lemma Zdigits2_bounds m : 0 < m -> 2 ^ (Zdigits2 m - 1) <= m < 2 ^ Zdigits2 m.
Proof. destruct m as [|p|p]; try lia. intros _. apply digits2_pos_bounds. Qed.

Lemma Zdigits2_upper m : 0 <= m -> m < 2 ^ Zdigits2 m.
Proof.
  intros H. destruct (Z.eq_dec m 0) as [->|]; [simpl; lia|].
  apply Zdigits2_bounds. lia.
Qed.

Lemma Zdigits2_le m k : 0 <= m -> m < 2 ^ k -> 0 <= k -> Zdigits2 m <= k.
Proof.
  intros Hm Hk Hk0. destruct (Z.eq_dec m 0) as [->|]; [simpl; lia|].
  destruct (Zdigits2_bounds m ltac:(lia)) as [L _].
  assert (2 ^ (Zdigits2 m - 1) < 2 ^ k) by lia.
  apply Z.pow_lt_mono_r_iff in H; lia.
Qed.

Lemma Zdigits2_ge m k : 2 ^ k <= m -> 0 <= k -> k + 1 <= Zdigits2 m.
Proof.
  intros Hk Hk0.
  assert (0 < m) by (pose proof (Z.pow_pos_nonneg 2 k); lia).
  destruct (Zdigits2_bounds m ltac:(lia)) as [_ U].
  assert (2 ^ k < 2 ^ Zdigits2 m) by lia.
  apply Z.pow_lt_mono_r_iff in H0; [lia|lia|apply Zdigits2_nonneg].
Qed.

Lemma fexp_eq x : fexp prec emax x = Z.max (x - 53) (-1074).
Proof. reflexivity. Qed.

(** *** The last stage *)

Lemma finish_spec m E :
  -1074 <= E -> 0 <= m <= 2 ^ 53 ->
  finish m E =
  if m =? 0 then S754_zero false
  else if m <? 2 ^ 53
       then if E <=? 971 then S754_finite false (Z.to_pos m) E else S754_infinity false
       else if E + 1 <=? 971 then S754_finite false (Z.to_pos (2 ^ 52)) (E + 1)
            else S754_infinity false.
Proof.
  intros HE Hm. unfold finish, shr_fexp, shr. rewrite fexp_eq.
  destruct (Z.eqb_spec m 0) as [->|Hm0].
  - simpl Zdigits2. destruct (Z.max (0 + E - 53) (-1074) - E) eqn:En; try lia; reflexivity.
  - destruct (Z.ltb_spec m (2 ^ 53)) as [Hlt|Hge].
    + pose proof (Zdigits2_le m 53 ltac:(lia) Hlt ltac:(lia)) as Hd.
      destruct (Z.max (Zdigits2 m + E - 53) (-1074) - E) eqn:En; try lia.
      * simpl. destruct m; try lia. reflexivity.
      * simpl. destruct m; try lia. reflexivity.
    + assert (m = 2 ^ 53) as -> by lia.
      change (Zdigits2 (2 ^ 53)) with 54.
      replace (Z.max (54 + E - 53) (-1074) - E) with 1 by lia.
      reflexivity.
Qed.

Lemma SFleb_finite_pos p e p' e' :
  SFleb (S754_finite false p e) (S754_finite false p' e') = true <->
  e < e' \/ (e = e' /\ (p <= p')%positive).
Proof.
  unfold SFleb, SFcompare.
  change (Pos.compare_cont Eq p p') with (Pos.compare p p').
  destruct (Z.compare_spec e e'); destruct (Pos.compare_spec p p'); split; intros; try reflexivity;
    try discriminate; try lia.
Qed.

Lemma finish_le m E m' E' :
  -1074 <= E -> -1074 <= E' -> 0 <= m <= 2 ^ 53 -> 0 <= m' <= 2 ^ 53 ->
  (E = E' /\ m <= m') \/ (E < E' /\ 2 ^ 52 <= m') ->
  SFleb (finish m E) (finish m' E') = true.
Proof.
  intros HE HE' Hm Hm' H.
  assert (P52 : 2 ^ 52 = 4503599627370496) by reflexivity.
  assert (P53 : 2 ^ 53 = 9007199254740992) by reflexivity.
  rewrite !finish_spec by assumption.
  repeat match goal with
  | |- context [Z.eqb ?a ?b] => destruct (Z.eqb_spec a b)
  | |- context [Z.ltb ?a ?b] => destruct (Z.ltb_spec a b)
  | |- context [Z.leb ?a ?b] => destruct (Z.leb_spec a b)
  end; try reflexivity; try lia;
  try (apply SFleb_finite_pos; rewrite ?P52 in *; rewrite ?P53 in *; lia).
Qed.

(** *** Rounding to nearest is monotone *)

Lemma rne_bounds N B : 0 < B -> N / B <= rne N B <= N / B + 1.
Proof.
  intros HB. unfold rne.
  destruct (N mod B =? 0); [lia|].
  destruct (2 * (N mod B) ?= B); [destruct (Z.even (N / B))| |]; lia.
Qed.

Lemma div_le_cross N B N' B' :
  0 < B -> 0 < B' -> N * B' <= N' * B -> N / B <= N' / B'.
Proof.
  intros HB HB' H.
  apply Z.div_le_lower_bound; [assumption|].
  pose proof (Z.mul_div_le N B HB) as Hm.
  assert (Hk : B * (B' * (N / B)) <= B * N') by nia.
  apply (Z.mul_le_mono_pos_l _ _ B HB). exact Hk.
Qed.

Lemma rne_mono N B N' B' :
  0 < B -> 0 < B' -> N * B' <= N' * B -> rne N B <= rne N' B'.
Proof.
  intros HB HB' H.
  pose proof (div_le_cross N B N' B' HB HB' H) as Hq.
  pose proof (rne_bounds N B HB). pose proof (rne_bounds N' B' HB').
  destruct (Z.eq_dec (N / B) (N' / B')) as [Eq|]; [|lia].
  pose proof (Z.div_mod N B ltac:(lia)) as E1.
  pose proof (Z.div_mod N' B' ltac:(lia)) as E2.
  pose proof (Z.mod_pos_bound N B HB) as B1.
  pose proof (Z.mod_pos_bound N' B' HB') as B2.
  unfold rne. rewrite <- Eq in *.
  set (q := N / B) in *. set (r := N mod B) in *. set (r' := N' mod B') in *.
  clearbody q r r'.
  assert (Hr : r * B' <= r' * B) by nia.
  destruct (Z.eqb_spec r 0) as [->|Hr0].
  - destruct (r' =? 0); [lia|].
    destruct (2 * r' ?= B'); [destruct (Z.even q)| |]; lia.
  - destruct (Z.eqb_spec r' 0) as [->|Hr0']; [nia|].
    destruct (Z.compare_spec (2 * r) B); destruct (Z.compare_spec (2 * r') B');
      try (destruct (Z.even q)); try lia; exfalso; nia.
Qed.

Lemma pow2_rescale X Y a b u v :
  0 <= a -> 0 <= b -> 0 <= u -> 0 <= v -> a + v = b + u ->
  X * 2 ^ a <= Y * 2 ^ b -> X * 2 ^ u <= Y * 2 ^ v.
Proof.
  intros Ha Hb Hu Hv E H.
  assert (P : 0 < 2 ^ (a + v)) by (apply Z.pow_pos_nonneg; lia).
  apply (Z.mul_le_mono_pos_r _ _ (2 ^ (a + v)) P).
  assert (E1 : X * 2 ^ u * 2 ^ (a + v) = X * 2 ^ a * 2 ^ (u + v))
    by (rewrite !Z.pow_add_r by lia; ring).
  assert (E2 : Y * 2 ^ v * 2 ^ (a + v) = Y * 2 ^ b * 2 ^ (u + v))
    by (rewrite E; rewrite !Z.pow_add_r by lia; ring).
  rewrite E1, E2.
  apply Z.mul_le_mono_nonneg_r; [apply Z.pow_nonneg; lia | exact H].
Qed.

Lemma round_ratio_eq N B e :
  0 <= N -> 0 < B -> enough_digits N B e ->
  round_ratio N B e = finish (rne N (B * 2 ^ shift N B e)) (e + shift N B e).
Proof. intros. now apply binary_round_aux_rne. Qed.

Lemma mantissa_upper N B e :
  0 <= N -> 0 < B -> enough_digits N B e ->
  0 <= rne N (B * 2 ^ shift N B e) <= 2 ^ 53.
Proof.
  intros HN HB Hn. unfold enough_digits in Hn.
  set (n := shift N B e) in *.
  assert (P : 0 < 2 ^ n) by (apply Z.pow_pos_nonneg; lia).
  pose proof (rne_bounds N (B * 2 ^ n) ltac:(nia)) as Hr.
  pose proof (Z.div_pos N (B * 2 ^ n) HN ltac:(nia)) as Hq0.
  enough (N / (B * 2 ^ n) < 2 ^ 53) by lia.
  apply Z.div_lt_upper_bound; [nia|].
  pose proof (Z.div_pos N B HN HB) as Hq.
  pose proof (Zdigits2_upper (N / B) Hq) as U.
  pose proof (Zdigits2_nonneg (N / B)) as D0.
  assert (Hdn : Zdigits2 (N / B) <= 53 + n) by (subst n; unfold shift; rewrite fexp_eq; lia).
  assert (Hp : 2 ^ Zdigits2 (N / B) <= 2 ^ (53 + n)) by (apply Z.pow_le_mono_r; lia).
  rewrite Z.pow_add_r in Hp by lia.
  pose proof (Z.div_mod N B ltac:(lia)). pose proof (Z.mod_pos_bound N B HB).
  nia.
Qed.

Lemma mantissa_lower N B e :
  0 <= N -> 0 < B -> enough_digits N B e -> -1074 < e + shift N B e ->
  2 ^ 52 <= rne N (B * 2 ^ shift N B e).
Proof.
  intros HN HB Hn HE. unfold enough_digits in Hn.
  assert (Hdn : Zdigits2 (N / B) = 53 + shift N B e)
    by (unfold shift in *; rewrite fexp_eq in *; lia).
  set (n := shift N B e) in *.
  assert (P : 0 < 2 ^ n) by (apply Z.pow_pos_nonneg; lia).
  pose proof (rne_bounds N (B * 2 ^ n) ltac:(nia)) as Hr.
  enough (2 ^ 52 <= N / (B * 2 ^ n)) by lia.
  apply Z.div_le_lower_bound; [nia|].
  assert (Hq : 0 < N / B).
  { pose proof (Z.div_pos N B HN HB).
    destruct (Z.eq_dec (N / B) 0) as [Hz|]; [rewrite Hz in Hdn; change (Zdigits2 0) with 0 in Hdn; lia | lia]. }
  destruct (Zdigits2_bounds (N / B) Hq) as [L _].
  rewrite Hdn in L. replace (53 + n - 1) with (52 + n) in L by lia.
  rewrite Z.pow_add_r in L by lia.
  pose proof (Z.mul_div_le N B HB). nia.
Qed.

Lemma exponent_mono N B e N' B' e' c :
  0 <= N -> 0 < B -> 0 <= N' -> 0 < B' -> c <= e -> c <= e' ->
  enough_digits N B e -> enough_digits N' B' e' ->
  N * B' * 2 ^ (e - c) <= N' * B * 2 ^ (e' - c) ->
  e + shift N B e <= e' + shift N' B' e'.
Proof.
  intros HN HB HN' HB' Hc Hc' Hn Hn' Hle. unfold enough_digits, shift in *.
  rewrite !fexp_eq in *.
  set (q := N / B) in *. set (q' := N' / B') in *.
  pose proof (Zdigits2_nonneg q) as D0. pose proof (Zdigits2_nonneg q') as D0'.
  assert (Hq : 0 <= q) by (apply Z.div_pos; lia).
  assert (Hq' : 0 <= q') by (apply Z.div_pos; lia).
  destruct (Z.eq_dec q 0) as [Hz|Hnz].
  - rewrite Hz in *. simpl Zdigits2 in *. lia.
  - enough (Zdigits2 q + e <= Zdigits2 q' + e') by lia.
    destruct (Zdigits2_bounds q ltac:(lia)) as [L _].
    pose proof (Zdigits2_ge q 0 ltac:(change (2 ^ 0) with 1; lia) ltac:(lia)) as D1.
    pose proof (Zdigits2_upper q' Hq') as U.
    pose proof (Z.mul_div_le N B HB) as M. fold q in M.
    pose proof (Z.div_mod N' B' ltac:(lia)) as M'. fold q' in M'.
    pose proof (Z.mod_pos_bound N' B' HB') as R'.
    assert (U' : N' < 2 ^ Zdigits2 q' * B') by nia.
    assert (L' : 2 ^ (Zdigits2 q - 1) * B <= N) by nia.
    assert (Pe : 0 < 2 ^ (e - c)) by (apply Z.pow_pos_nonneg; lia).
    assert (Pe' : 0 < 2 ^ (e' - c)) by (apply Z.pow_pos_nonneg; lia).
    assert (H1 : 2 ^ (Zdigits2 q - 1) * B * B' * 2 ^ (e - c) <= N * B' * 2 ^ (e - c)).
    { apply Z.mul_le_mono_nonneg_r; [lia|]. apply Z.mul_le_mono_nonneg_r; lia. }
    assert (H2 : N' * B * 2 ^ (e' - c) < 2 ^ Zdigits2 q' * B' * B * 2 ^ (e' - c)).
    { apply Z.mul_lt_mono_pos_r; [lia|]. apply Z.mul_lt_mono_pos_r; lia. }
    assert (H3 : (B * B') * 2 ^ (Zdigits2 q - 1 + (e - c)) < (B * B') * 2 ^ (Zdigits2 q' + (e' - c))).
    { rewrite !Z.pow_add_r by lia. 
      replace (B * B' * (2 ^ (Zdigits2 q - 1) * 2 ^ (e - c)))
        with (2 ^ (Zdigits2 q - 1) * B * B' * 2 ^ (e - c)) by ring.
      replace (B * B' * (2 ^ Zdigits2 q' * 2 ^ (e' - c)))
        with (2 ^ Zdigits2 q' * B' * B * 2 ^ (e' - c)) by ring.
      lia. }
    apply Z.mul_lt_mono_pos_l in H3; [|nia].
    apply Z.pow_lt_mono_r_iff in H3; lia.
Qed.

(** Rounding is monotone: a smaller rational rounds to a number that is not larger. *)
Theorem round_ratio_le N B e N' B' e' c :
  0 <= N -> 0 < B -> 0 <= N' -> 0 < B' -> c <= e -> c <= e' ->
  enough_digits N B e -> enough_digits N' B' e' ->
  N * B' * 2 ^ (e - c) <= N' * B * 2 ^ (e' - c) ->
  SFleb (round_ratio N B e) (round_ratio N' B' e') = true.
Proof.
  intros HN HB HN' HB' Hc Hc' Hn Hn' Hle.
  rewrite !round_ratio_eq by assumption.
  pose proof (exponent_mono _ _ _ _ _ _ _ HN HB HN' HB' Hc Hc' Hn Hn' Hle) as HE.
  pose proof (mantissa_upper N B e HN HB Hn) as U.
  pose proof (mantissa_upper N' B' e' HN' HB' Hn') as U'.
  assert (E0 : -1074 <= e + shift N B e) by (unfold shift; rewrite fexp_eq; lia).
  assert (E0' : -1074 <= e' + shift N' B' e') by (unfold shift; rewrite fexp_eq; lia).
  apply finish_le; try assumption.
  destruct (Z.eq_dec (e + shift N B e) (e' + shift N' B' e')) as [HEq|HNe].
  - left. split; [assumption|].
    unfold enough_digits in *.
    assert (P : 0 < 2 ^ shift N B e) by (apply Z.pow_pos_nonneg; lia).
    assert (P' : 0 < 2 ^ shift N' B' e') by (apply Z.pow_pos_nonneg; lia).
    apply rne_mono; [nia|nia|].
    replace (N * (B' * 2 ^ shift N' B' e')) with ((N * B') * 2 ^ shift N' B' e') by ring.
    replace (N' * (B * 2 ^ shift N B e)) with ((N' * B) * 2 ^ shift N B e) by ring.
    apply (pow2_rescale _ _ (e - c) (e' - c)); try lia.
  - right. split; [lia|].
    apply mantissa_lower; try assumption. lia.
Qed.

(** *** Numbers as roundings *)

Lemma bounded_facts m e :
  bounded prec emax m e = true ->
  fexp prec emax (Z.pos (digits2_pos m) + e) = e /\ e <= 971 /\ -1074 <= e /\
  Z.pos m < 2 ^ 53.
Proof.
  unfold bounded, canonical_mantissa. intros H.
  apply andb_true_iff in H as [H1 H2].
  apply Z.eqb_eq in H1. apply Z.leb_le in H2. change (emax - prec) with 971 in H2.
  pose proof H1 as H1'. rewrite fexp_eq in H1'.
  repeat split; try lia.
  destruct (digits2_pos_bounds m) as [L _].
  assert (Hd : Z.pos (digits2_pos m) <= 53) by lia.
  destruct (Z.lt_ge_cases (Z.pos m) (2 ^ 53)) as [|Hge]; [assumption|exfalso].
  pose proof (Zdigits2_ge (Z.pos m) 53 Hge ltac:(lia)) as G. simpl in G. lia.
Qed.

Lemma loc_of_1 N : loc_of N 1 = loc_Exact.
Proof. unfold loc_of. rewrite Z.mod_1_r. reflexivity. Qed.

Lemma rne_1 N : rne N 1 = N.
Proof. unfold rne. rewrite Z.mod_1_r, Z.div_1_r. reflexivity. Qed.

Lemma round_ratio_1 N e :
  round_ratio N 1 e = binary_round_aux prec emax false N e loc_Exact.
Proof. unfold round_ratio. rewrite Z.div_1_r, loc_of_1. reflexivity. Qed.

(** A number in canonical form is its own rounding. *)
Lemma round_canonical m e :
  bounded prec emax m e = true ->
  enough_digits (Z.pos m) 1 e /\
  round_ratio (Z.pos m) 1 e = S754_finite false m e.
Proof.
  intros Hb. destruct (bounded_facts m e Hb) as (Hc & He & He' & Hm).
  assert (Hs : shift (Z.pos m) 1 e = 0).
  { unfold shift. rewrite Z.div_1_r. simpl Zdigits2. lia. }
  split; [unfold enough_digits; lia|].
  rewrite round_ratio_eq; try lia; [|unfold enough_digits; lia].
  rewrite Hs, Z.pow_0_r, Z.mul_1_r, rne_1, Z.add_0_r.
  rewrite finish_spec by lia.
  destruct (Z.eqb_spec (Z.pos m) 0); [lia|].
  destruct (Z.ltb_spec (Z.pos m) (2 ^ 53)); [|lia].
  destruct (Z.leb_spec e 971); [|lia]. reflexivity.
Qed.

(** The value order of two canonical non-negative numbers is the order
    [SFleb] computes on their exponents and mantissas. *)
Lemma canonical_value_le m e m' e' k :
  bounded prec emax m e = true -> bounded prec emax m' e' = true ->
  SFleb (S754_finite false m e) (S754_finite false m' e') = true ->
  k <= e -> k <= e' ->
  Z.pos m * 2 ^ (e - k) <= Z.pos m' * 2 ^ (e' - k).
Proof.
  intros Hb Hb' H Hk Hk'.
  destruct (bounded_facts m e Hb) as (Hc & He & He0 & Hm).
  destruct (bounded_facts m' e' Hb') as (Hc' & He' & He0' & Hm').
  apply SFleb_finite_pos in H as [Hlt|[-> Hle]].
  - rewrite fexp_eq in Hc'.
    assert (Hd : Z.pos (digits2_pos m') = 53) by lia.
    destruct (digits2_pos_bounds m') as [L _]. rewrite Hd in L. change (53 - 1) with 52 in L.
    assert (P : 0 < 2 ^ (e - k)) by (apply Z.pow_pos_nonneg; lia).
    assert (P' : 0 < 2 ^ (e' - k)) by (apply Z.pow_pos_nonneg; lia).
    assert (Q : 2 ^ (53 + (e - k)) <= 2 ^ (52 + (e' - k))) by (apply Z.pow_le_mono_r; lia).
    rewrite !Z.pow_add_r in Q by lia.
    nia.
  - apply Z.mul_le_mono_nonneg_r; [apply Z.pow_nonneg; lia | lia].
Qed.

Lemma finish_nonneg m E :
  -1074 <= E -> 0 <= m <= 2 ^ 53 ->
  SFleb (S754_zero false) (finish m E) = true /\
  SFleb (finish m E) (S754_infinity false) = true.
Proof.
  intros HE Hm. rewrite finish_spec by assumption.
  repeat match goal with
  | |- context [Z.eqb ?a ?b] => destruct (Z.eqb_spec a b)
  | |- context [Z.ltb ?a ?b] => destruct (Z.ltb_spec a b)
  | |- context [Z.leb ?a ?b] => destruct (Z.leb_spec a b)
  end; split; reflexivity.
Qed.

Lemma round_ratio_nonneg N B e :
  0 <= N -> 0 < B -> enough_digits N B e ->
  SFleb (S754_zero false) (round_ratio N B e) = true /\
  SFleb (round_ratio N B e) (S754_infinity false) = true.
Proof.
  intros HN HB Hn. rewrite round_ratio_eq by assumption.
  apply finish_nonneg; [unfold shift; rewrite fexp_eq; lia|].
  now apply mantissa_upper.
Qed.

(** *** Addition *)

Lemma iter_xO_spec m d :
  Z.pos (Pos.iter xO m d) = Z.pos m * 2 ^ Z.pos d /\
  Z.pos (digits2_pos (Pos.iter xO m d)) = Z.pos (digits2_pos m) + Z.pos d.
Proof.
  induction d as [|d IH] using Pos.peano_ind.
  - simpl. rewrite Pos2Z.inj_succ. lia.
  - rewrite Pos.iter_succ. destruct IH as [IH1 IH2].
    cbn [digits2_pos]. rewrite !Pos2Z.inj_succ, Pos2Z.inj_xO, IH1, IH2.
    rewrite Z.pow_succ_r by lia. split; [ring|lia].
Qed.

Lemma shl_align_spec m e e' :
  let '(m', e'') := shl_align m e e' in
  e'' = Z.min e e' /\
  Z.pos m' = Z.pos m * 2 ^ (e - e'') /\
  Z.pos (digits2_pos m') + e'' = Z.pos (digits2_pos m) + e.
Proof.
  unfold shl_align. destruct (e' - e) as [|d|d] eqn:E.
  - rewrite Z.sub_diag. simpl. lia.
  - rewrite Z.sub_diag. simpl. lia.
  - destruct (iter_xO_spec m d) as [V D].
    replace (e - e') with (Z.pos d) by lia. lia.
Qed.

(** The sum of two positive finite numbers is the rounding of the exact sum. *)
Lemma SFadd_finite ma ea mb eb :
  exists N e,
    SF64add (S754_finite false ma ea) (S754_finite false mb eb) = round_ratio N 1 e /\
    0 <= N /\ enough_digits N 1 e /\ e <= ea /\ e <= eb /\
    N = Z.pos ma * 2 ^ (ea - e) + Z.pos mb * 2 ^ (eb - e).
Proof.
  unfold SF64add, SFadd. cbn [cond_Zopp].
  set (ez := Z.min ea eb).
  pose proof (shl_align_spec ma ea ez) as Ha. pose proof (shl_align_spec mb eb ez) as Hb.
  destruct (shl_align ma ea ez) as [ma' ea'], (shl_align mb eb ez) as [mb' eb'].
  destruct Ha as (Ea & Va & _), Hb as (Eb & Vb & _). cbn [fst].
  assert (ea' = ez) by lia. assert (eb' = ez) by lia. subst ea' eb'.
  change (Z.pos ma' + Z.pos mb') with (Z.pos (ma' + mb')).
  cbn [binary_normalize]. unfold binary_round.
  set (M := (ma' + mb')%positive).
  pose proof (shl_align_spec M ez (fexp prec emax (Z.pos (digits2_pos M) + ez))) as Hz.
  destruct (shl_align M ez (fexp prec emax (Z.pos (digits2_pos M) + ez))) as [mz ez'].
  destruct Hz as (Ez & Vz & Dz).
  exists (Z.pos mz), ez'. rewrite round_ratio_1.
  split; [reflexivity|]. split; [lia|].
  split.
  { unfold enough_digits, shift. rewrite Z.div_1_r. cbn [Zdigits2]. rewrite Dz. lia. }
  split; [lia|]. split; [lia|].
  rewrite Vz. unfold M. rewrite Pos2Z.inj_add, Va, Vb.
  rewrite Z.mul_add_distr_r, <- !Z.mul_assoc, <- !Z.pow_add_r by lia.
  f_equal; f_equal; f_equal; lia.
Qed.

Lemma SFleb_refl_finite m e : SFleb (S754_finite false m e) (S754_finite false m e) = true.
Proof. apply SFleb_finite_pos. right. split; [reflexivity|lia]. Qed.

(** Adding a positive finite number does not decrease a positive finite number. *)
Lemma SFadd_finite_le ma ea mb eb :
  bounded prec emax ma ea = true ->
  SFleb (S754_finite false ma ea)
        (SF64add (S754_finite false ma ea) (S754_finite false mb eb)) = true.
Proof.
  intros Hb.
  destruct (SFadd_finite ma ea mb eb) as (N & e & -> & HN & Hd & Hea & Heb & V).
  destruct (round_canonical ma ea Hb) as [Hd0 <-].
  apply (round_ratio_le _ _ _ _ _ _ e); try lia; try assumption.
  rewrite Z.sub_diag, Z.pow_0_r, V.
  assert (0 <= Z.pos mb * 2 ^ (eb - e)) by (apply Z.mul_nonneg_nonneg; [lia|apply Z.pow_nonneg; lia]).
  lia.
Qed.

(** *** Division *)

Lemma new_location_spec N B :
  0 < B -> new_location B (N mod B) = loc_of N B.
Proof.
  intros HB. pose proof (Z.mod_pos_bound N B HB) as Hr.
  unfold new_location, new_location_even, new_location_odd, loc_of.
  destruct (Z.even B) eqn:Ev; [reflexivity|].
  destruct (Z.eqb_spec (N mod B) 0); [reflexivity|].
  assert (Hodd : Z.odd B = true) by (rewrite <- Z.negb_even, Ev; reflexivity).
  apply Z.odd_spec in Hodd as [k Hk].
  destruct (Z.compare_spec (2 * (N mod B) + 1) B);
    destruct (Z.compare_spec (2 * (N mod B)) B); try reflexivity; lia.
Qed.

(** The quotient of two finite numbers of the same sign is the rounding of
    the exact quotient. *)
Lemma SFdiv_finite s ma ea mt et :
  Z.pos ma < 2 ^ 53 ->
  exists N e,
    SF64div (S754_finite s ma ea) (S754_finite s mt et) = round_ratio N (Z.pos mt) e /\
    0 <= N /\ enough_digits N (Z.pos mt) e /\ e <= ea - et /\
    N = Z.pos ma * 2 ^ (ea - et - e).
Proof.
  intros Hma. unfold SF64div, SFdiv, SFdiv_core_binary.
  replace (xorb s s) with false by (destruct s; reflexivity).
  cbn [Zdigits2].
  set (da := Z.pos (digits2_pos ma)). set (dt := Z.pos (digits2_pos mt)).
  set (e := Z.min (fexp prec emax (da + ea - (dt + et))) (ea - et)).
  set (sh := ea - et - e).
  assert (Hsh : 0 <= sh) by (unfold sh, e; lia).
  set (N := match sh with
            | 0 => Z.pos ma
            | Z.pos _ => Z.shiftl (Z.pos ma) sh
            | Z.neg _ => 0
            end).
  assert (HN : N = Z.pos ma * 2 ^ sh).
  { unfold N. revert Hsh. generalize sh. intros k Hk. destruct k; try lia.
    rewrite Z.shiftl_mul_pow2 by lia. reflexivity. }
  assert (P : 0 < 2 ^ sh) by (apply Z.pow_pos_nonneg; lia).
  assert (HN0 : 0 < N) by nia.
  exists N, e.
  assert (Hdiv : Z.div_eucl N (Z.pos mt) = (N / Z.pos mt, N mod Z.pos mt)).
  { unfold Z.div, Z.modulo. destruct (Z.div_eucl N (Z.pos mt)). reflexivity. }
  rewrite Hdiv. rewrite new_location_spec by lia.
  split; [reflexivity|]. split; [lia|]. split; [|split; [unfold e; lia | exact HN]].
  (* enough digits *)
  unfold enough_digits, shift. rewrite fexp_eq.
  destruct (Z.le_gt_cases e (-1074)) as [Hlow|Hhigh]; [lia|].
  destruct (digits2_pos_bounds ma) as [La Ua]. destruct (digits2_pos_bounds mt) as [Lt Ut].
  fold da in La, Ua. fold dt in Lt, Ut.
  assert (Hda : da <= 53).
  { apply (Zdigits2_le (Z.pos ma) 53); lia. }
  assert (Hdt : 1 <= dt) by (unfold dt; lia).
  assert (He : e = da + ea - (dt + et) - 53) by (unfold e in *; rewrite fexp_eq in *; lia).
  assert (Hs : sh = 53 - da + dt) by (unfold sh; lia).
  enough (53 <= Zdigits2 (N / Z.pos mt)) by lia.
  apply (Zdigits2_ge _ 52); [|lia].
  apply Z.div_le_lower_bound; [lia|].
  assert (Q : 2 ^ (da - 1) * 2 ^ sh = 2 ^ 52 * 2 ^ dt).
  { rewrite <- !Z.pow_add_r by lia. f_equal. lia. }
  assert (P52 : 0 < 2 ^ 52) by reflexivity.
  nia.
Qed.

Lemma Zpos_lt_pow53 m e : bounded prec emax m e = true -> Z.pos m < 2 ^ 53.
Proof. intros H. now destruct (bounded_facts m e H) as (_ & _ & _ & ?). Qed.

(** Division by a positive finite number is monotone on positive finite numbers. *)
Lemma SFdiv_finite_le ma ea ma' ea' mt et :
  bounded prec emax ma ea = true -> bounded prec emax ma' ea' = true ->
  SFleb (S754_finite false ma ea) (S754_finite false ma' ea') = true ->
  SFleb (SF64div (S754_finite false ma ea) (S754_finite false mt et))
        (SF64div (S754_finite false ma' ea') (S754_finite false mt et)) = true.
Proof.
  intros Hb Hb' Hle.
  destruct (SFdiv_finite false ma ea mt et (Zpos_lt_pow53 _ _ Hb))
    as (N & e & -> & HN & Hd & He & V).
  destruct (SFdiv_finite false ma' ea' mt et (Zpos_lt_pow53 _ _ Hb'))
    as (N' & e' & -> & HN' & Hd' & He' & V').
  set (c := Z.min e e').
  apply (round_ratio_le _ _ _ _ _ _ c); try lia; try assumption.
  pose proof (canonical_value_le ma ea ma' ea' (c + et) Hb Hb' Hle ltac:(lia) ltac:(lia)) as Hv.
  assert (E1 : N * 2 ^ (e - c) = Z.pos ma * 2 ^ (ea - (c + et))).
  { rewrite V, <- Z.mul_assoc, <- Z.pow_add_r by lia. f_equal. f_equal. lia. }
  assert (E2 : N' * 2 ^ (e' - c) = Z.pos ma' * 2 ^ (ea' - (c + et))).
  { rewrite V', <- Z.mul_assoc, <- Z.pow_add_r by lia. f_equal. f_equal. lia. }
  replace (N * Z.pos mt * 2 ^ (e - c)) with (N * 2 ^ (e - c) * Z.pos mt) by ring.
  replace (N' * Z.pos mt * 2 ^ (e' - c)) with (N' * 2 ^ (e' - c) * Z.pos mt) by ring.
  rewrite E1, E2. apply Z.mul_le_mono_nonneg_r; lia.
Qed.

(** A finite non-zero number divided by itself is exactly 1. *)
Lemma SFdiv_self s m e :
  Z.pos m < 2 ^ 53 ->
  SF64div (S754_finite s m e) (S754_finite s m e) = S754_finite false 4503599627370496 (-52).
Proof.
  intros Hm.
  destruct (SFdiv_finite s m e m e Hm) as (N & e' & -> & HN & Hd & He & V).
  rewrite round_ratio_eq by (try assumption; lia).
  unfold enough_digits in Hd.
  assert (HN0 : 0 < 2 ^ (e - e - e')) by (apply Z.pow_pos_nonneg; lia).
  assert (Hq : N / Z.pos m = 2 ^ (e - e - e')).
  { rewrite V, Z.mul_comm. apply Z.div_mul. lia. }
  assert (Hsh : e' + shift N (Z.pos m) e' = -52 /\ e - e - e' = 52 + shift N (Z.pos m) e').
  { unfold shift in *. rewrite Hq in *. rewrite fexp_eq in *.
    assert (D : Zdigits2 (2 ^ (e - e - e')) = e - e - e' + 1).
    { apply Z.le_antisymm.
      - apply Zdigits2_le; try lia. rewrite Z.pow_add_r by lia. lia.
      - apply Zdigits2_ge; lia. }
    rewrite D in *. lia. }
  destruct Hsh as [-> Hk].
  set (sh := shift N (Z.pos m) e') in *. clearbody sh.
  assert (Hr : rne N (Z.pos m * 2 ^ sh) = 2 ^ 52).
  { unfold rne. rewrite V, Hk, Z.pow_add_r by lia.
    set (P := 2 ^ sh).
    assert (0 < P) by (apply Z.pow_pos_nonneg; lia).
    replace (Z.pos m * (2 ^ 52 * P)) with (2 ^ 52 * (Z.pos m * P)) by ring.
    rewrite Z.mod_mul, Z.div_mul by nia. reflexivity. }
  rewrite Hr. reflexivity.
Qed.

End Rounding.

Import Rounding.

Local Open Scope string_scope.
Local Open Scope float_scope.

(** *** Square roots *)

Lemma shr_1_nonneg mrs : (0 <= shr_m mrs)%Z -> (0 <= shr_m (shr_1 mrs))%Z.
Proof. destruct mrs as [[|[p|p|]|p] r s]; simpl; lia. Qed.

Lemma iter_shr_nonneg p : forall mrs, (0 <= shr_m mrs)%Z -> (0 <= shr_m (iter_pos shr_1 p mrs))%Z.
Proof.
  induction p as [p IH|p IH|]; intros mrs H; cbn [iter_pos]; auto using shr_1_nonneg.
Qed.

Lemma shr_fexp_nonneg m e l :
  (0 <= m)%Z -> (0 <= shr_m (fst (shr_fexp prec emax m e l)))%Z.
Proof.
  intros H. unfold shr_fexp, shr.
  destruct (fexp prec emax (Zdigits2 m + e) - e)%Z; cbn [fst];
    try apply iter_shr_nonneg; rewrite shr_m_record; assumption.
Qed.

Lemma round_nearest_even_nonneg m l : (0 <= m)%Z -> (0 <= round_nearest_even m l)%Z.
Proof. destruct l as [|[]]; simpl; try destruct (Z.even m); lia. Qed.

(** Rounding a non-negative mantissa never yields NaN or a negative number. *)
Lemma binary_round_aux_nonneg m e l :
  (0 <= m)%Z ->
  SFleb (S754_zero false) (binary_round_aux prec emax false m e l) = true.
Proof.
  intros H. unfold binary_round_aux.
  pose proof (shr_fexp_nonneg m e l H) as H1.
  destruct (shr_fexp prec emax m e l) as [mrs' e1]. cbn [fst] in H1.
  pose proof (shr_fexp_nonneg _ e1 loc_Exact
                (round_nearest_even_nonneg _ (loc_of_shr_record mrs') H1)) as H2.
  destruct (shr_fexp prec emax _ e1 loc_Exact) as [mrs'' e2]. cbn [fst] in H2.
  destruct (shr_m mrs''); try lia; [reflexivity|].
  destruct (e2 <=? emax - prec)%Z; reflexivity.
Qed.

Lemma SFsqrt_nonneg x :
  SFleb (S754_zero false) x = true -> SFleb (S754_zero false) (SF64sqrt x) = true.
Proof.
  destruct x as [s|[]| |[] m e]; try discriminate; try reflexivity.
  intros _. unfold SF64sqrt, SFsqrt, SFsqrt_core_binary.
  set (m' := match (e - 2 * _)%Z with Z0 => _ | Z.pos _ => _ | Z.neg _ => _ end).
  pose proof (Z.sqrtrem_spec m') as S.
  destruct (Z.sqrtrem m') as [q r].
  apply binary_round_aux_nonneg.
  assert (0 <= m')%Z.
  { unfold m'. destruct (e - 2 * _)%Z; try lia. apply Z.shiftl_nonneg. lia. }
  specialize (S H). lia.
Qed.

(** ** Facts about numbers *)

Lemma Prim2SF_zero : Prim2SF 0 = S754_zero false.
Proof. reflexivity. Qed.

Lemma Prim2SF_one : Prim2SF 1 = S754_finite false 4503599627370496 (-52).
Proof. reflexivity. Qed.

Lemma Prim2SF_infinity : Prim2SF infinity = S754_infinity false.
Proof. reflexivity. Qed.

Lemma nonneg_shape_of (x : float) : (0 <=? x) = true -> nonneg_shape (Prim2SF x).
Proof.
  rewrite leb_spec, Prim2SF_zero. pose proof (Prim2SF_valid x) as V.
  destruct (Prim2SF x) as [s|[]| |[] m e]; try discriminate; intros _; constructor.
  exact V.
Qed.

(** The sum of two numbers [>= 0] is [>= 0] and not below the first. *)
Lemma SFadd_nonneg x y :
  nonneg_shape x -> nonneg_shape y ->
  SFleb x (SF64add x y) = true /\ SFleb (S754_zero false) (SF64add x y) = true.
Proof.
  intros Hx Hy. inversion Hx as [sx|Ex|mx ex Bx]; inversion Hy as [sy|Ey|my ey By]; subst.
  all: try (repeat match goal with s : bool |- _ => destruct s end;
            split; first [reflexivity | apply SFleb_refl_finite]; fail).
  split.
  - apply SFadd_finite_le. assumption.
  - destruct (SFadd_finite mx ex my ey) as (N & e & -> & HN & Hd & _).
    apply round_ratio_nonneg; try assumption; lia.
Qed.

Lemma add_nonneg (a b : float) :
  (0 <=? a) = true -> (0 <=? b) = true ->
  (a <=? a + b) = true /\ (0 <=? a + b) = true.
Proof.
  intros Ha Hb. rewrite !leb_spec, add_spec, Prim2SF_zero.
  apply SFadd_nonneg; now apply nonneg_shape_of.
Qed.

(** The shape of a positive finite number. *)
Lemma positive_finite_shape (t : float) :
  (0 <? t) = true -> (t <? infinity) = true ->
  exists m e, Prim2SF t = S754_finite false m e /\ bounded prec emax m e = true.
Proof.
  rewrite !ltb_spec, Prim2SF_zero, Prim2SF_infinity. pose proof (Prim2SF_valid t) as V.
  destruct (Prim2SF t) as [s|[]| |[] m e]; try discriminate; intros _ _.
  exists m, e. split; [reflexivity|exact V].
Qed.

Lemma SFdiv_nonneg x mt et :
  nonneg_shape x ->
  SFleb (S754_zero false) (SF64div x (S754_finite false mt et)) = true /\
  SFleb (SF64div x (S754_finite false mt et)) (S754_infinity false) = true.
Proof.
  intros Hx. inversion Hx as [sx|Ex|mx ex Bx]; subst.
  - destruct sx; split; reflexivity.
  - split; reflexivity.
  - destruct (SFdiv_finite false mx ex mt et (Zpos_lt_pow53 _ _ Bx)) as (N & e & -> & HN & Hd & _).
    apply round_ratio_nonneg; try assumption; lia.
Qed.

Lemma SFdiv_le x x' mt et :
  nonneg_shape x -> nonneg_shape x' -> SFleb x x' = true ->
  SFleb (SF64div x (S754_finite false mt et)) (SF64div x' (S754_finite false mt et)) = true.
Proof.
  intros Hx Hx' Hle.
  inversion Hx as [sx|Ex|mx ex Bx]; inversion Hx' as [sx'|Ex'|mx' ex' Bx']; subst;
    try discriminate.
  - destruct sx, sx'; reflexivity.
  - destruct sx; reflexivity.
  - destruct (SFdiv_nonneg (S754_finite false mx' ex') mt et Hx') as [H _].
    destruct sx; exact H.
  - reflexivity.
  - destruct (SFdiv_nonneg (S754_finite false mx ex) mt et Hx) as [_ H]. exact H.
  - now apply SFdiv_finite_le.
Qed.

(** Dividing by a positive finite number preserves [<=] on numbers [>= 0]. *)
Lemma div_le_mono (a a' t : float) :
  (0 <=? a) = true -> (0 <=? a') = true -> (a <=? a') = true ->
  (0 <? t) = true -> (t <? infinity) = true ->
  (a / t <=? a' / t) = true.
Proof.
  intros Ha Ha' Hle Ht Hf. destruct (positive_finite_shape t Ht Hf) as (mt & et & Et & _).
  rewrite leb_spec in Hle. rewrite leb_spec, !div_spec, Et.
  apply SFdiv_le; try assumption; now apply nonneg_shape_of.
Qed.

(** A positive finite number divided by itself is exactly 1. *)
Lemma div_self (t : float) :
  (0 <? t) = true -> (t <? infinity) = true -> t / t = 1.
Proof.
  intros Ht Hf. destruct (positive_finite_shape t Ht Hf) as (mt & et & Et & Bt).
  apply Prim2SF_inj. rewrite div_spec, Et, Prim2SF_one.
  apply SFdiv_self. now apply Zpos_lt_pow53 with (e := et).
Qed.

(** A number between 0 and a zero is a zero. *)
Lemma squeezed_zero (x z : float) :
  (0 <=? x) = true -> (x <=? z) = true -> (z =? 0) = true -> (x =? 0) = true.
Proof.
  rewrite !leb_spec, !FloatAxioms.eqb_spec, Prim2SF_zero.
  destruct (Prim2SF x) as [s|[]| |[] m e]; destruct (Prim2SF z) as [s'|[]| |[] m' e'];
    try discriminate; try reflexivity.
Qed.

Lemma zero_div_zero (x z : float) :
  (x =? 0) = true -> (z =? 0) = true -> is_nan (x / z) = true.
Proof.
  unfold is_nan. rewrite !FloatAxioms.eqb_spec, div_spec, Prim2SF_zero.
  destruct (Prim2SF x) as [s|[]| |[] m e]; destruct (Prim2SF z) as [s'|[]| |[] m' e'];
    try discriminate; reflexivity.
Qed.

Lemma sqrt_nonneg (v : float) : (0 <=? v) = true -> (0 <=? sqrt v) = true.
Proof.
  rewrite !leb_spec, sqrt_spec, Prim2SF_zero. apply SFsqrt_nonneg.
Qed.

(** The square root of a number that is not [>= 0] is NaN. *)
Lemma sqrt_nan (v : float) : (0 <=? v) = false -> is_nan (sqrt v) = true.
Proof.
  unfold is_nan. rewrite leb_spec, FloatAxioms.eqb_spec, sqrt_spec, Prim2SF_zero.
  destruct (Prim2SF v) as [s|[]| |[] m e]; try discriminate; reflexivity.
Qed.

(** Comparing the other way round gives the opposite answer. *)
Lemma SFcompare_antisym x y :
  SFcompare y x = option_map CompOpp (SFcompare x y).
Proof.
  destruct x as [sx|sx| |sx mx ex], y as [sy|sy| |sy my ey];
    try destruct sx; try destruct sy; try reflexivity.
  all: cbn [SFcompare option_map]; f_equal;
    change (Pos.compare_cont Eq my mx) with (Pos.compare my mx);
    change (Pos.compare_cont Eq mx my) with (Pos.compare mx my);
    destruct (Z.compare_spec ey ex); destruct (Z.compare_spec ex ey); try lia;
    try reflexivity;
    destruct (Pos.compare_spec my mx); destruct (Pos.compare_spec mx my);
    try lia; reflexivity.
Qed.

(** On numbers that are not NaN, [x < y] fails exactly when [y <= x]. *)
Lemma ltb_false_leb (x y : number) :
  is_nan x = false -> is_nan y = false ->
  (x <? y) = negb (y <=? x).
Proof.
  unfold is_nan. rewrite !FloatAxioms.eqb_spec, ltb_spec, leb_spec.
  unfold SFeqb, SFltb, SFleb. rewrite (SFcompare_antisym (Prim2SF x) (Prim2SF y)).
  intros Hx Hy.
  assert (Nx : Prim2SF x <> S754_nan) by (intros E; rewrite E in Hx; discriminate).
  assert (Ny : Prim2SF y <> S754_nan) by (intros E; rewrite E in Hy; discriminate).
  destruct (SFcompare (Prim2SF x) (Prim2SF y)) as [[]|] eqn:C; try reflexivity.
  exfalso. destruct (Prim2SF x) as [sx|sx| |sx mx ex], (Prim2SF y) as [sy|sy| |sy my ey];
    try congruence; discriminate.
Qed.

Lemma isInteger_not_nan (x : number) : isInteger x = true -> is_nan x = false.
Proof.
  unfold isInteger, is_nan. rewrite FloatAxioms.eqb_spec. unfold SFeqb.
  destruct (Prim2SF x) as [s|s| |s m e]; try discriminate; intros _; [reflexivity|].
  destruct s; cbn [SFcompare]; rewrite Z.compare_refl;
    change (Pos.compare_cont Eq m m) with (Pos.compare m m);
    rewrite Pos.compare_refl; reflexivity.
Qed.

(** A number that is at least 19 is at least every sampled integer. *)
Lemma above_all_samples (n : number) :
  (19 <=? n) = true -> Forall (fun x => (x <=? n) = true) integers_0_19.
Proof.
  intros H. rewrite leb_spec in H.
  change (Prim2SF 19) with (S754_finite false 5348024557502464 (-48)) in H.
  unfold integers_0_19.
  repeat (constructor;
          [rewrite leb_spec;
           match goal with |- SFleb (Prim2SF ?x) _ = true =>
             let v := eval vm_compute in (Prim2SF x) in change (Prim2SF x) with v
           end;
           destruct (Prim2SF n) as [s|[]| |[] m e]; try discriminate; try reflexivity;
           apply SFleb_finite_pos in H; apply SFleb_finite_pos; lia|]).
  constructor.
Qed.

Lemma nonneg_not_negative (x : number) : (x >=? 0) = true -> (x <? 0) = false.
Proof.
  unfold geb. rewrite leb_spec, ltb_spec, Prim2SF_zero.
  destruct (Prim2SF x) as [[]|[]| |[] m e]; cbv; congruence.
Qed.

Lemma bind_Return {A B : Type} (a : A) (k : A -> outcome B) : bind (Return a) k = k a.
Proof. reflexivity. Qed.

(** ** Facts about [mapM] *)

Lemma mapM_total {A B : Type} (f : A -> outcome B) (l : list A) :
  (forall a, In a l -> exists b, f a = Return b) -> exists bs, mapM f l = Return bs.
Proof.
  induction l as [|a l IH]; intros H; simpl; [eauto|].
  destruct (H a (or_introl eq_refl)) as [b ->].
  destruct IH as [bs ->]; [intros; apply H; now right|]. simpl. eauto.
Qed.

Lemma mapM_length {A B : Type} (f : A -> outcome B) (l : list A) (bs : list B) :
  mapM f l = Return bs -> List.length bs = List.length l.
Proof.
  revert bs. induction l as [|a l IH]; simpl; intros bs H.
  - now inversion H.
  - destruct (f a); simpl in H; try discriminate.
    destruct (mapM f l); simpl in H; try discriminate.
    inversion H; subst. simpl. f_equal. now apply IH.
Qed.

Lemma mapM_Return_In {A B : Type} (f : A -> outcome B) (l : list A) (bs : list B) (a : A) :
  mapM f l = Return bs -> In a l -> exists b, f a = Return b.
Proof.
  revert bs. induction l as [|x l IH]; intros bs H Hin; [contradiction|].
  simpl in H. destruct (f x) as [b| |] eqn:Fx; try discriminate.
  destruct (mapM f l) as [bs'| |] eqn:M; try discriminate.
  destruct Hin as [<-|Hin]; [eauto|]. now apply (IH bs').
Qed.

Lemma mapM_fuel {A B : Type} (f : A -> outcome B) (l : list A) :
  (forall a, f a <> OutOfFuel) -> mapM f l <> OutOfFuel.
Proof.
  intros H. induction l as [|a l IH]; simpl; [discriminate|].
  specialize (H a). destruct (f a); simpl; try congruence.
  destruct (mapM f l); simpl; congruence.
Qed.

(** ** Facts about [computeCDF] *)

Lemma cumulative_length (s : number) (l : list number) :
  List.length (cumulative s l) = List.length l.
Proof. revert s. induction l as [|p l IH]; intros s; simpl; [reflexivity|]. now rewrite IH. Qed.

Lemma computeCDF_length (l : list number) : List.length (computeCDF l) = List.length l.
Proof. unfold computeCDF. now rewrite length_map, cumulative_length. Qed.

Lemma last_cumulative (s : number) (l : list number) (d : number) :
  l <> [] -> last (cumulative s l) d = fold_left PrimFloat.add l s.
Proof.
  revert s. induction l as [|p l IH]; intros s H; [congruence|].
  destruct l as [|p' l']; [reflexivity|].
  change (cumulative s (p :: p' :: l')) with ((s + p) :: cumulative (s + p) (p' :: l')).
  change (fold_left PrimFloat.add (p :: p' :: l') s)
    with (fold_left PrimFloat.add (p' :: l') (s + p)).
  rewrite <- IH by discriminate.
  change (cumulative (s + p) (p' :: l'))
    with ((s + p + p') :: cumulative (s + p + p') l'). reflexivity.
Qed.

(** The cumulative sums of numbers [>= 0] are [>= 0] and never decrease. *)
Lemma cumulative_monotone (l : list number) : forall s : number,
  nonneg s -> Forall nonneg l ->
  Forall nonneg (cumulative s l) /\ non_decreasing (s :: cumulative s l).
Proof.
  induction l as [|p l IH]; intros s Hs Hl; [split; [constructor|exact I]|].
  inversion Hl as [|? ? Hp Hl']; subst.
  destruct (add_nonneg s p Hs Hp) as [Hle Hsp].
  destruct (IH (s + p) Hsp Hl') as [F M].
  split; [constructor; assumption|].
  change (cumulative s (p :: l)) with ((s + p) :: cumulative (s + p) l).
  split; assumption.
Qed.

Lemma non_decreasing_tail (x : number) (l : list number) :
  non_decreasing (x :: l) -> non_decreasing l.
Proof. destruct l; [intros; exact I|]. intros [_ H]; exact H. Qed.

(** Normalising by a positive finite total keeps the order. *)
Lemma normalised_monotone (t : number) (l : list number) :
  (0 <? t) = true -> (t <? infinity) = true ->
  Forall nonneg l -> non_decreasing l ->
  non_decreasing (map (fun val => val / t) l).
Proof.
  intros Ht Hf. induction l as [|x l IH]; intros F M; [exact I|].
  destruct l as [|y l']; [exact I|].
  inversion F as [|? ? Hx F']; subst. inversion F' as [|? ? Hy _]; subst.
  destruct M as [Hxy M'].
  split; [now apply div_le_mono | now apply IH].
Qed.

Lemma last_map {A B : Type} (f : A -> B) (l : list A) (d : A) (d' : B) :
  l <> [] -> last (map f l) d' = f (last l d).
Proof.
  induction l as [|a l IH]; intros H; [congruence|].
  destruct l as [|b l']; [reflexivity|].
  change (last (map f (a :: b :: l')) d') with (last (map f (b :: l')) d').
  rewrite IH by discriminate. reflexivity.
Qed.

Lemma cumulative_not_nil (s : number) (l : list number) : l <> [] -> cumulative s l <> [].
Proof. destruct l; [congruence|discriminate]. Qed.

Lemma computeCDF_total (l : list number) :
  l <> [] ->
  computeCDF l = map (fun val => val / fold_left PrimFloat.add l 0) (cumulative 0 l).
Proof. intros H. unfold computeCDF. now rewrite (last_cumulative 0 l nan H). Qed.

Lemma nonneg_zero : nonneg 0.
Proof. reflexivity. Qed.

(** Non-negative densities with a positive finite total: the normalised
    cumulative sums never decrease and end at exactly 1. *)
Theorem computeCDF_monotone (pdfValues : list number) :
  Forall nonneg pdfValues ->
  (0 <? fold_left PrimFloat.add pdfValues 0) = true ->
  (fold_left PrimFloat.add pdfValues 0 <? infinity) = true ->
  non_decreasing (computeCDF pdfValues) /\ last (computeCDF pdfValues) nan = 1.
Proof.
  intros F Ht Hf.
  assert (Hne : pdfValues <> []) by (intros ->; discriminate Ht).
  rewrite (computeCDF_total _ Hne).
  destruct (cumulative_monotone pdfValues 0 nonneg_zero F) as [Fc Mc].
  split.
  - apply normalised_monotone; try assumption. now apply non_decreasing_tail in Mc.
  - rewrite (last_map _ _ nan nan) by now apply cumulative_not_nil.
    rewrite (last_cumulative 0 pdfValues nan Hne). now apply div_self.
Qed.

(** When the densities are [>= 0] and the last cumulative sum is a zero, every
    cumulative sum is a zero. *)
Lemma cumulative_all_zero (l : list number) : forall s : number,
  nonneg s -> Forall nonneg l -> l <> [] ->
  (fold_left PrimFloat.add l s =? 0) = true ->
  Forall (fun c => (c =? 0) = true) (cumulative s l).
Proof.
  induction l as [|p l IH]; intros s Hs F Hne Hz; [congruence|].
  inversion F as [|? ? Hp F']; subst.
  destruct (add_nonneg s p Hs Hp) as [_ Hsp].
  change (cumulative s (p :: l)) with ((s + p) :: cumulative (s + p) l).
  destruct l as [|p' l'].
  - constructor; [exact Hz|constructor].
  - pose proof (IH (s + p) Hsp F' ltac:(discriminate) Hz) as Z.
    constructor; [|exact Z].
    inversion F' as [|? ? Hp' _]; subst.
    destruct (add_nonneg (s + p) p' Hsp Hp') as [Hle _].
    change (cumulative (s + p) (p' :: l')) with ((s + p + p') :: cumulative (s + p + p') l') in Z.
    inversion Z as [|? ? Hz' _]; subst.
    exact (squeezed_zero _ _ Hsp Hle Hz').
Qed.

Theorem computeCDF_zero_total (pdfValues : list number) :
  Forall nonneg pdfValues ->
  (fold_left PrimFloat.add pdfValues 0 =? 0) = true ->
  Forall (fun c => is_nan c = true) (computeCDF pdfValues).
Proof.
  intros F Hz. destruct pdfValues as [|p l]; [constructor|].
  rewrite computeCDF_total by discriminate.
  pose proof (cumulative_all_zero (p :: l) 0 nonneg_zero F ltac:(discriminate) Hz) as Z.
  apply Forall_map. revert Z. apply Forall_impl. intros c Hc. now apply zero_div_zero.
Qed.

Lemma cumulative_running (l : list number) : forall s : number,
  cumulative s l =
  map (fun i => fold_left PrimFloat.add (firstn (S i) l) s) (seq 0 (List.length l)).
Proof.
  induction l as [|p l IH]; intros s; [reflexivity|].
  change (cumulative s (p :: l)) with ((s + p) :: cumulative (s + p) l).
  rewrite IH. cbn [List.length seq map]. f_equal.
  rewrite <- seq_shift, map_map. reflexivity.
Qed.

(** [computeCDF] is the running sum over the total. *)
Theorem computeCDF_running_sum (pdfValues : list number) :
  computeCDF pdfValues =
  map (fun i => running_sum pdfValues i / running_sum pdfValues (List.length pdfValues - 1))
      (seq 0 (List.length pdfValues)).
Proof.
  destruct pdfValues as [|p l] eqn:E; [reflexivity|]. rewrite <- E.
  assert (Hne : pdfValues <> []) by (rewrite E; discriminate).
  rewrite (computeCDF_total _ Hne).
  assert (Ht : running_sum pdfValues (List.length pdfValues - 1) = fold_left PrimFloat.add pdfValues 0).
  { unfold running_sum. rewrite firstn_all2; [reflexivity|]. rewrite E. simpl. lia. }
  rewrite Ht, cumulative_running, map_map. reflexivity.
Qed.

Section Claims.
Context {host : Host}.

Lemma sample_points_steps (type : string) :
  sample_points type =
  Return (if is_discrete type then steps 0 1 20 else steps (-5) 0.1 100).
Proof.
  unfold sample_points. destruct (is_discrete type); vm_compute; reflexivity.
Qed.

(** The handler on a registered kind. *)
Lemma handler_registered (type : string) (d : Dist.Descriptor) (query : list (string * string)) :
  assoc type distributions = Some d ->
  handler type query =
  (xValues <- sample_points type ;;
   pdfValues <- mapM (fun x => Dist.pdf d x (request_params query)) xValues ;;
   Return (Ok {|
     xValues := xValues;
     pdfValues := pdfValues;
     cdfValues := computeCDF pdfValues;
     stats := {| Stats.mean := Dist.mean d (request_params query);
                 Stats.variance := Dist.variance d (request_params query);
                 Stats.stdDev := sqrt (Dist.variance d (request_params query)) |};
     pdfExpression := Dist.pdfExpression d;
     cdfExpression := Dist.cdfExpression d
   |})).
Proof.
  intros H. unfold handler, computeStatistics, distributions_at. rewrite H. reflexivity.
Qed.

Lemma poisson_pdf_total x params : exists v, Dist.pdf poisson x params = Return v.
Proof.
  change (Dist.pdf poisson x params) with
    (if isInteger x && (x >=? 0)
     then f <- math_factorial x ;;
          Return ((Math_exp (- arg params 0 3) * Math_pow (arg params 0 3) x) / f)
     else Return 0).
  destruct (isInteger x && (x >=? 0)) eqn:G; [| eauto].
  apply andb_true_iff in G as [_ G]. unfold math_factorial.
  rewrite (nonneg_not_negative _ G). cbn. eauto.
Qed.

Lemma registered_kinds (type : string) (d : Dist.Descriptor) :
  assoc type distributions = Some d ->
  (type = "normal" /\ d = normal) \/ (type = "uniform" /\ d = uniform) \/
  (type = "exponential" /\ d = exponential) \/ (type = "poisson" /\ d = poisson) \/
  (type = "rayleigh" /\ d = rayleigh) \/ (type = "laplacian" /\ d = laplacian) \/
  (type = "binomial" /\ d = binomial).
Proof.
  unfold distributions, assoc.
  repeat match goal with
  | |- context [String.eqb ?k type] =>
      destruct (String.eqb_spec k type) as [<-|_]
  end; intros H; inversion H; subst; tauto.
Qed.

Lemma pdf_total_except_binomial (type : string) (d : Dist.Descriptor) :
  assoc type distributions = Some d -> type <> "binomial"%string ->
  forall x params, exists v, Dist.pdf d x params = Return v.
Proof.
  intros H Hb x params.
  destruct (registered_kinds _ _ H) as [[-> ->]|[[-> ->]|[[-> ->]|[[-> ->]|[[-> ->]|[[-> ->]|[-> ->]]]]]]].
  all: try (cbn; eauto; fail).
  - apply poisson_pdf_total.
  - congruence.
Qed.

Lemma handler_total_except_binomial (type : string) (d : Dist.Descriptor) (query : list (string * string)) :
  assoc type distributions = Some d -> type <> "binomial"%string ->
  exists body, handler type query = Return (Ok body).
Proof.
  intros H Hb. rewrite (handler_registered _ _ _ H), sample_points_steps, bind_Return.
  destruct (mapM_total (fun x => Dist.pdf d x (request_params query))
              (if is_discrete type then steps 0 1 20 else steps (-5) 0.1 100))
    as [ps ->].
  - intros; now apply pdf_total_except_binomial with (type := type).
  - rewrite bind_Return. eauto.
Qed.

(** What a 200 response is made of. *)
Lemma handler_Ok (type : string) (query : list (string * string)) (body : Payload) :
  handler type query = Return (Ok body) ->
  exists d,
    assoc type distributions = Some d /\
    xValues body = (if is_discrete type then steps 0 1 20
                    else steps (-5) 0.1 100) /\
    mapM (fun x => Dist.pdf d x (request_params query)) (xValues body) =
      Return (pdfValues body) /\
    cdfValues body = computeCDF (pdfValues body) /\
    computeStatistics type (request_params query) = Return (stats body) /\
    pdfExpression body = Dist.pdfExpression d /\
    cdfExpression body = Dist.cdfExpression d.
Proof.
  intros H.
  destruct (assoc type distributions) as [d|] eqn:E.
  - exists d. rewrite (handler_registered _ _ _ E), sample_points_steps, bind_Return in H.
    destruct (mapM _ _) as [ps| |] eqn:M; try discriminate.
    rewrite bind_Return in H. inversion H; subst; clear H. cbn [xValues pdfValues cdfValues stats pdfExpression cdfExpression].
    repeat split; try assumption; try reflexivity.
    unfold computeStatistics, distributions_at. rewrite E. reflexivity.
  - exfalso. unfold handler, distributions_at in H. rewrite E in H.
    destruct (existsb (String.eqb type) Object_prototype_keys); [|discriminate].
    rewrite sample_points_steps, bind_Return in H.
    destruct (is_discrete type); discriminate.
Qed.

Lemma assoc_cons_neq {A : Type} (k key : string) (v : A) (obj : list (string * A)) :
  k <> key -> assoc key ((k, v) :: obj) = assoc key obj.
Proof. intros H. simpl. destruct (String.eqb_spec k key); [contradiction|reflexivity]. Qed.

(** On an object (no key twice) the parameters are the parsed values, in order. *)
Lemma request_params_values (query : list (string * string)) :
  NoDup (Object_keys query) ->
  request_params query = map parseFloat (map snd query).
Proof.
  unfold request_params, Object_keys.
  induction query as [|[k v] q IH]; intros H; [reflexivity|].
  inversion H as [|? ? Hk Hq]; subst. cbn [map fst snd]. f_equal.
  - unfold parse_param. simpl. now rewrite String.eqb_refl.
  - rewrite <- IH by assumption. apply map_ext_in. intros key Hin.
    unfold parse_param. rewrite assoc_cons_neq; [reflexivity|].
    intros ->. contradiction.
Qed.

Lemma nth_completed (params defaults extra : list number) (i : nat) (d : number) :
  (i < List.length defaults)%nat ->
  nth i (completed params defaults extra) (nth i defaults d) = nth i params (nth i defaults d).
Proof.
  intros Hi. unfold completed.
  destruct (Nat.lt_ge_cases i (List.length params)) as [Hlt|Hge].
  - rewrite app_nth1 by (rewrite length_app; lia). now rewrite app_nth1.
  - rewrite app_nth1 by (rewrite length_app, length_skipn; lia).
    rewrite app_nth2 by assumption.
    rewrite (nth_overflow params) by assumption.
    rewrite nth_skipn.
    replace (List.length params + (i - List.length params))%nat with i by lia.
    now apply nth_indep.
Qed.

Ltac args_completed :=
  unfold arg;
  repeat match goal with
  | |- context [nth ?i (completed ?p ?dfl ?ex) ?d] =>
      change (nth i (completed p dfl ex) d) with (nth i (completed p dfl ex) (nth i dfl d));
      rewrite (nth_completed p dfl ex i d) by (simpl; lia);
      change (nth i dfl d) with d
  end.

(** Missing trailing parameters take the defaults and extra ones are ignored. *)
Lemma defaults_and_extras (type : string) (d : Dist.Descriptor) (params extra : list number) :
  assoc type distributions = Some d ->
  (forall x, Dist.pdf d x (completed params (pdf_defaults type) extra) = Dist.pdf d x params) /\
  Dist.mean d (completed params (mean_defaults type) extra) = Dist.mean d params /\
  Dist.variance d (completed params (variance_defaults type) extra) = Dist.variance d params.
Proof.
  intros H.
  destruct (registered_kinds _ _ H) as [[-> ->]|[[-> ->]|[[-> ->]|[[-> ->]|[[-> ->]|[[-> ->]|[-> ->]]]]]]];
    (split; [intros x|split]);
    cbn [Dist.pdf Dist.mean Dist.variance normal uniform exponential poisson rayleigh laplacian binomial];
    change (pdf_defaults "normal") with [0; 1];
    change (pdf_defaults "uniform") with [0; 1];
    change (pdf_defaults "exponential") with [1];
    change (pdf_defaults "poisson") with [3];
    change (pdf_defaults "rayleigh") with [1];
    change (pdf_defaults "laplacian") with [0; 1];
    change (pdf_defaults "binomial") with [10; 0.5];
    change (mean_defaults "normal") with [0];
    change (mean_defaults "uniform") with [0; 1];
    change (mean_defaults "exponential") with [1];
    change (mean_defaults "poisson") with [3];
    change (mean_defaults "rayleigh") with [1];
    change (mean_defaults "laplacian") with [0];
    change (mean_defaults "binomial") with [10; 0.5];
    change (variance_defaults "normal") with [1];
    change (variance_defaults "uniform") with [0; 1];
    change (variance_defaults "exponential") with [1];
    change (variance_defaults "poisson") with [3];
    change (variance_defaults "rayleigh") with [1];
    change (variance_defaults "laplacian") with [1];
    change (variance_defaults "binomial") with [10; 0.5];
    args_completed; reflexivity.
Qed.

(** *** Which requests are answered *)

(** [math.combinations(n, x)] accepts exactly the integers [0 <= x <= n]. *)
Lemma math_combinations_Return (n x : number) :
  (exists c, math_combinations n x = Return c) <->
  isInteger n = true /\ (n <? 0) = false /\
  isInteger x = true /\ (x <? 0) = false /\ (n <? x) = false.
Proof.
  unfold math_combinations, gtb.
  destruct (isInteger n), (n <? 0), (isInteger x), (x <? 0), (n <? x); cbn;
    split; try (intros [c H]; discriminate); try (intros (? & ? & ? & ? & ?); discriminate);
    try (intros; repeat split; reflexivity); eauto.
Qed.

(** A binomial request is answered exactly when [n] is an integer of at least
    19, the largest sample point; the default [n = 10] is not. *)
Theorem binomial_request_returns_iff (query : list (string * string)) :
  (exists body, handler "binomial" query = Return (Ok body)) <->
  isInteger (arg (request_params query) 0 10) = true /\
  (19 <=? arg (request_params query) 0 10) = true.
Proof.
  set (n := arg (request_params query) 0 10).
  assert (Hpdf : forall x, (exists v, Dist.pdf binomial x (request_params query) = Return v) <->
                           exists c, math_combinations n x = Return c).
  { intros x.
    change (Dist.pdf binomial x (request_params query)) with
      (c <- math_combinations n x ;;
       Return (c * Math_pow (arg (request_params query) 1 0.5) x *
               Math_pow (1 - arg (request_params query) 1 0.5) (n - x))).
    destruct (math_combinations n x); cbn [bind]; split; intros [? H]; try discriminate; eauto. }
  split.
  - intros [body H]. destruct (handler_Ok _ _ _ H) as (d & Hd & Hx & Hp & _).
    assert (d = binomial).
    { assert (E : assoc "binomial" distributions = Some binomial) by reflexivity.
      congruence. }
    subst d.
    rewrite Hx in Hp. change (is_discrete "binomial") with true in Hp. cbv iota in Hp.
    destruct (mapM_Return_In _ _ _ 19 Hp) as [v Hv];
      [vm_compute; tauto|].
    assert (Hc : exists c, math_combinations n 19 = Return c) by (apply Hpdf; eauto).
    apply math_combinations_Return in Hc as (Hi & _ & _ & _ & Hlt).
    split; [exact Hi|].
    rewrite (ltb_false_leb n 19 (isInteger_not_nan _ Hi) eq_refl) in Hlt.
    now apply negb_false_iff in Hlt.
  - intros [Hi Hge].
    rewrite (handler_registered "binomial" binomial query eq_refl), sample_points_steps, bind_Return.
    change (is_discrete "binomial") with true. cbv iota.
    destruct (mapM_total (fun x => Dist.pdf binomial x (request_params query)) (steps 0 1 20))
      as [ps ->]; [|rewrite bind_Return; eauto].
    intros x Hin. apply Hpdf. apply math_combinations_Return.
    pose proof (isInteger_not_nan _ Hi) as Nn.
    pose proof (above_all_samples n Hge) as A.
    change (steps 0 1 20) with integers_0_19 in Hin.
    rewrite Forall_forall in A. specialize (A x Hin).
    assert (Nx : is_nan x = false /\ isInteger x = true /\ (x <? 0) = false).
    { unfold integers_0_19 in Hin. simpl in Hin.
      repeat (destruct Hin as [<-|Hin]; [repeat split; vm_compute; reflexivity|]).
      contradiction. }
    destruct Nx as (Nx & Ix & Px).
    repeat split; try assumption.
    + rewrite (ltb_false_leb n 0 Nn eq_refl). apply negb_false_iff.
      apply (Forall_inv (above_all_samples n Hge)).
    + rewrite (ltb_false_leb n x Nn Nx). now apply negb_false_iff.
Qed.

Lemma pdf_fuel (type : string) (d : Dist.Descriptor) (x : number) (params : list number) :
  assoc type distributions = Some d -> Dist.pdf d x params <> OutOfFuel.
Proof.
  intros H.
  destruct (string_dec type "binomial") as [->|Hb].
  - assert (E : assoc "binomial" distributions = Some binomial) by reflexivity.
    assert (d = binomial) by congruence. subst d.
    change (Dist.pdf binomial x params) with
      (c <- math_combinations (arg params 0 10) x ;;
       Return (c * Math_pow (arg params 1 0.5) x *
               Math_pow (1 - arg params 1 0.5) (arg params 0 10 - x))).
    unfold math_combinations.
    repeat match goal with |- context [if ?b then _ else _] => destruct b end;
      discriminate.
  - destruct (pdf_total_except_binomial type d H Hb x params) as [v ->]. discriminate.
Qed.

(** The fuel of the model is never exhausted: every request is answered or
    ends in an exception. *)
Theorem handler_terminates (type : string) (query : list (string * string)) :
  handler type query <> OutOfFuel.
Proof.
  destruct (assoc type distributions) as [d|] eqn:E.
  - rewrite (handler_registered _ _ _ E), sample_points_steps, bind_Return.
    pose proof (mapM_fuel (fun x => Dist.pdf d x (request_params query))
                  (if is_discrete type then steps 0 1 20 else steps (-5) 0.1 100)
                  (fun x => pdf_fuel type d x _ E)) as F.
    destruct (mapM _ _); cbn [bind]; congruence.
  - unfold handler, distributions_at. rewrite E.
    destruct (existsb (String.eqb type) Object_prototype_keys); [|discriminate].
    rewrite sample_points_steps, bind_Return.
    destruct (is_discrete type); discriminate.
Qed.

(** *** Statistics *)

Lemma computeStatistics_registered (type : string) (d : Dist.Descriptor) (params : list number) :
  assoc type distributions = Some d ->
  computeStatistics type params =
  Return {| Stats.mean := Dist.mean d params;
            Stats.variance := Dist.variance d params;
            Stats.stdDev := sqrt (Dist.variance d params) |}.
Proof. intros H. unfold computeStatistics, distributions_at. now rewrite H. Qed.

Lemma computeStatistics_Return (type : string) (params : list number) (st : Stats.Statistics) :
  computeStatistics type params = Return st ->
  exists d, assoc type distributions = Some d /\
            Stats.mean st = Dist.mean d params /\
            Stats.variance st = Dist.variance d params /\
            Stats.stdDev st = sqrt (Dist.variance d params).
Proof.
  unfold computeStatistics, distributions_at.
  destruct (assoc type distributions) as [d|].
  - intros H. inversion H; subst. exists d. repeat split; reflexivity.
  - destruct (existsb _ _); discriminate.
Qed.

(** The closed forms the five kinds other than normal and laplacian return
    for a full parameter list, and every mean. *)
Lemma closed_forms (mu sigma a b lambda n p : number) :
  Dist.mean normal [mu; sigma] = mu /\
  Dist.mean uniform [a; b] = (a + b) / 2 /\
  Dist.variance uniform [a; b] = Math_pow (b - a) 2 / 12 /\
  Dist.mean exponential [lambda] = 1 / lambda /\
  Dist.variance exponential [lambda] = 1 / Math_pow lambda 2 /\
  Dist.mean poisson [lambda] = lambda /\
  Dist.variance poisson [lambda] = lambda /\
  Dist.mean rayleigh [sigma] = sigma * sqrt (Math_PI / 2) /\
  Dist.variance rayleigh [sigma] = (2 - Math_PI / 2) * Math_pow sigma 2 /\
  Dist.mean laplacian [mu; b] = mu /\
  Dist.mean binomial [n; p] = n * p /\
  Dist.variance binomial [n; p] = n * p * (1 - p).
Proof. repeat split; reflexivity. Qed.

(** C2: with the canonical parameter list [mu; sigma] (normal) or [mu; b]
    (laplacian), [computeStatistics] spreads the same list into [variance],
    whose first formal parameter is sigma (resp. b): the variance returned is
    mu ** 2 (resp. 2 * mu ** 2), whatever sigma (resp. b) is, instead of the
    closed forms sigma^2 and 2 b^2 of the claim. *)
Theorem C2_variance_reads_the_first_parameter (mu sigma b : number) :
  computeStatistics "normal" [mu; sigma] =
    Return {| Stats.mean := mu;
              Stats.variance := Math_pow mu 2;
              Stats.stdDev := sqrt (Math_pow mu 2) |} /\
  computeStatistics "laplacian" [mu; b] =
    Return {| Stats.mean := mu;
              Stats.variance := 2 * Math_pow mu 2;
              Stats.stdDev := sqrt (2 * Math_pow mu 2) |}.
Proof. split; reflexivity. Qed.

(** *** Requests *)

(** C1: the request [GET /distribution/binomial] without query parameters
    does not run to completion: with the default n = 10 the density is
    evaluated at x = 0..19 and [math.combinations(10, 11)] throws, so an
    exception escapes the handler although the kind is registered. *)
Theorem C1_binomial_default_request_throws :
  handler "binomial" [] = Throw (TypeError "k must be less than or equal to n").
Proof. vm_compute. reflexivity. Qed.

(** C3: the kind "constructor" is outside the enumeration, yet
    [distributions["constructor"]] is the function inherited from
    [Object.prototype], which is truthy: the guard lets the request through,
    the sample points are computed, and the call of the missing [pdf] throws
    instead of the 400 answer. *)
Theorem C3_inherited_key_passes_the_guard (query : list (string * string)) :
  existsb (String.eqb "constructor") kinds = false /\
  handler "constructor" query =
    Throw (TypeError "distributions[type].pdf is not a function").
Proof.
  split; vm_compute; reflexivity.
Qed.

(** A kind that is neither registered nor a member of [Object.prototype]
    is answered 400 before anything is computed. *)
Lemma handler_unknown_kind (type : string) (query : list (string * string)) :
  existsb (String.eqb type) kinds = false ->
  existsb (String.eqb type) Object_prototype_keys = false ->
  handler type query = Return (BadRequest "Invalid distribution type").
Proof.
  intros Hk Hp. unfold handler, distributions_at. rewrite Hp.
  assert (E : assoc type distributions = None).
  { unfold kinds in Hk. cbn [existsb] in Hk.
    repeat (apply orb_false_iff in Hk as [? Hk]).
    unfold distributions, assoc.
    repeat match goal with
    | H : String.eqb type ?k = false |- context [String.eqb ?k type] =>
        rewrite (String.eqb_sym k type), H
    end. reflexivity. }
  rewrite E. reflexivity.
Qed.

(** *** Sample points *)

Lemma is_discrete_iff (type : string) :
  is_discrete type = true <-> type = "poisson" \/ type = "binomial".
Proof.
  unfold is_discrete. rewrite orb_true_iff, !String.eqb_eq. reflexivity.
Qed.


(** *** Parameters *)


(** *** Cumulative values *)

(** C4, amended: when every sampled density is [>= 0] and the total is
    strictly positive and finite, the cumulative values never decrease and
    the last one is exactly 1; the three sequences always have the same
    length. *)
Theorem C4_cdf_non_decreasing_and_ends_at_one
    (type : string) (query : list (string * string)) (body : Payload) :
  handler type query = Return (Ok body) ->
  Forall nonneg (pdfValues body) ->
  (0 <? fold_left PrimFloat.add (pdfValues body) 0) = true ->
  (fold_left PrimFloat.add (pdfValues body) 0 <? infinity) = true ->
  non_decreasing (cdfValues body) /\
  last (cdfValues body) nan = 1 /\
  List.length (cdfValues body) = List.length (pdfValues body) /\
  List.length (pdfValues body) = List.length (xValues body).
Proof.
  intros H F Ht Hf. destruct (handler_Ok _ _ _ H) as (d & _ & _ & Hp & -> & _).
  destruct (computeCDF_monotone _ F Ht Hf) as [M L].
  repeat split; try assumption.
  - apply computeCDF_length.
  - now apply mapM_length in Hp.
Qed.

(** C5: the cumulative values are the running sums of the densities in
    sample order, each divided by the last running sum (the total); no step
    width occurs. *)
Theorem C5_cdf_is_the_running_sum_over_the_total (pdfValues : list number) :
  computeCDF pdfValues =
  map (fun i => running_sum pdfValues i / running_sum pdfValues (List.length pdfValues - 1))
      (seq 0 (List.length pdfValues)).
Proof. apply computeCDF_running_sum. Qed.

(** C8, amended: when every sampled density is [>= 0] and the total is
    exactly 0, every cumulative value is the NaN of 0 / 0. *)
Theorem C8_zero_total_gives_nan
    (type : string) (query : list (string * string)) (body : Payload) :
  handler type query = Return (Ok body) ->
  Forall nonneg (pdfValues body) ->
  (fold_left PrimFloat.add (pdfValues body) 0 =? 0) = true ->
  Forall (fun c => is_nan c = true) (cdfValues body).
Proof.
  intros H F Hz. destruct (handler_Ok _ _ _ H) as (d & _ & _ & _ & -> & _).
  now apply computeCDF_zero_total.
Qed.

(** C9, amended: [stdDev] is [Math.sqrt(variance)]; it is [>= 0] whenever
    the variance is [>= 0], and NaN otherwise (the parameters are not
    validated, so the variance may be negative or NaN). *)
Theorem C9_stdDev_is_sqrt_of_variance
    (type : string) (params : list number) (st : Stats.Statistics) :
  computeStatistics type params = Return st ->
  Stats.stdDev st = sqrt (Stats.variance st) /\
  ((Stats.variance st >=? 0) = true -> (Stats.stdDev st >=? 0) = true) /\
  ((Stats.variance st >=? 0) = false -> is_nan (Stats.stdDev st) = true).
Proof.
  intros H. destruct (computeStatistics_Return _ _ _ H) as (d & _ & _ & Hv & Hs).
  rewrite Hs, Hv. unfold geb. split; [reflexivity|]. split.
  - apply sqrt_nonneg.
  - apply sqrt_nan.
Qed.

(** *** Densities *)

(** C10: the poisson density returns a number for every [x] and every
    parameter list: outside the non-negative integers it is 0 and the
    factorial is not evaluated, inside them [math.factorial] accepts its
    argument.  The binomial density has no such guard: on a non-integer [x]
    [math.combinations] throws. *)
Theorem C10_poisson_density_is_total (x : number) (params : list number) :
  (exists v, Dist.pdf poisson x params = Return v) /\
  ((isInteger x && (x >=? 0)) = false -> Dist.pdf poisson x params = Return 0) /\
  ((isInteger x && (x >=? 0)) = true ->
     Dist.pdf poisson x params =
     Return (Math_exp (- arg params 0 3) * Math_pow (arg params 0 3) x / factorial_value x)) /\
  (isInteger x = false -> exists e, Dist.pdf binomial x params = Throw e).
Proof.
  split; [apply poisson_pdf_total|].
  change (Dist.pdf poisson x params) with
    (if isInteger x && (x >=? 0)
     then f <- math_factorial x ;;
          Return ((Math_exp (- arg params 0 3) * Math_pow (arg params 0 3) x) / f)
     else Return 0).
  split; [intros ->; reflexivity|]. split.
  - intros G. rewrite G. apply andb_true_iff in G as [_ G]. unfold math_factorial.
    now rewrite (nonneg_not_negative _ G).
  - intros Hx.
    change (Dist.pdf binomial x params) with
      (c <- math_combinations (arg params 0 10) x ;;
       Return (c * Math_pow (arg params 1 0.5) x *
               Math_pow (1 - arg params 1 0.5) (arg params 0 10 - x))).
    unfold math_combinations. rewrite Hx. cbn [negb orb].
    destruct (negb (isInteger (arg params 0 10)) || (arg params 0 10 <? 0));
      cbn [bind]; eauto.
Qed.

End Claims.

(** ** The claims on concrete requests (reference host) *)

(** C4, as stated, fails.  With a = b = -5 the uniform density is
    1 / 0 = Infinity at the sample point -5: the total is strictly positive,
    yet every cumulative value is Infinity / Infinity = NaN, so the last one
    is not 1 and the sequence is not ordered.  With n = 20, p = -0.5 the
    binomial densities alternate in sign: the total 0.99999904632568359 is
    positive and finite, and the cumulative values go down from 3325.26 to
    -18843.14. *)
Lemma C4_counterexample :
  (exists body,
     Reference.handler "uniform" [("a", "-5"); ("b", "-5")] = Return (Ok body) /\
     (0 <? fold_left PrimFloat.add (pdfValues body) 0) = true /\
     is_nan (last (cdfValues body) 0) = true /\
     (nth 0 (cdfValues body) 0 <=? nth 1 (cdfValues body) 0) = false) /\
  (exists body,
     Reference.handler "binomial" [("n", "20"); ("p", "-0.5")] = Return (Ok body) /\
     (0 <? fold_left PrimFloat.add (pdfValues body) 0) = true /\
     (fold_left PrimFloat.add (pdfValues body) 0 <? infinity) = true /\
     (nth 0 (cdfValues body) 0 <=? nth 1 (cdfValues body) 0) = false).
Proof.
  split; eexists; (split; [vm_compute; reflexivity|]); repeat split; vm_compute; reflexivity.
Qed.

(** The default uniform request meets the hypotheses of C4 as amended. *)
Lemma C4_witness :
  exists body,
    Reference.handler "uniform" [] = Return (Ok body) /\
    non_decreasing (cdfValues body) /\
    last (cdfValues body) nan = 1 /\
    List.length (cdfValues body) = List.length (pdfValues body) /\
    List.length (pdfValues body) = List.length (xValues body).
Proof.
  eexists. split; [vm_compute; reflexivity|].
  apply (@C4_cdf_non_decreasing_and_ends_at_one Reference.host "uniform" []).
  - vm_compute; reflexivity.
  - cbn [pdfValues]. repeat (constructor; [reflexivity|]). constructor.
  - vm_compute; reflexivity.
  - vm_compute; reflexivity.
Defined.



(** C8, as stated, fails.  With n = 20 and p = -1 the binomial densities
    C(20, x) (-1)^x 2^(20 - x), x = 0..19, add up to exactly 0, but the
    running sums before the last are not 0: the first cumulative value is
    1048576 / 0 = Infinity, not NaN. *)
Lemma C8_counterexample :
  exists body,
    Reference.handler "binomial" [("n", "20"); ("p", "-1")] = Return (Ok body) /\
    fold_left PrimFloat.add (pdfValues body) 0 = 0 /\
    nth 0 (pdfValues body) 0 = 1048576 /\
    nth 0 (cdfValues body) 0 = infinity /\
    is_nan (nth 0 (cdfValues body) 0) = false.
Proof.
  eexists. split; [vm_compute; reflexivity|]. repeat split; vm_compute; reflexivity.
Qed.

(** A uniform request whose support [7, 8] misses every sample point. *)
Lemma C8_witness :
  exists body,
    Reference.handler "uniform" [("a", "7"); ("b", "8")] = Return (Ok body) /\
    Forall (fun c => is_nan c = true) (cdfValues body).
Proof.
  eexists. split; [vm_compute; reflexivity|].
  apply (@C8_zero_total_gives_nan Reference.host "uniform" [("a", "7"); ("b", "8")]).
  - vm_compute; reflexivity.
  - cbn [pdfValues]. repeat (constructor; [reflexivity|]). constructor.
  - vm_compute; reflexivity.
Defined.

(** C9, as stated, fails.  A poisson request with lambda = -3 returns the
    variance -3, which is not [>= 0], and the standard deviation
    sqrt(-3) = NaN, which is not [>= 0] either. *)
Lemma C9_counterexample :
  exists st,
    @computeStatistics Reference.host "poisson" [-3] = Return st /\
    Stats.variance st = -3 /\
    (Stats.variance st >=? 0) = false /\
    (Stats.stdDev st >=? 0) = false /\
    is_nan (Stats.stdDev st) = true.
Proof.
  eexists. split; [vm_compute; reflexivity|]. repeat split; vm_compute; reflexivity.
Qed.

(** The default binomial statistics: variance 2.5 and its square root. *)
Lemma C9_witness :
  exists st,
    @computeStatistics Reference.host "binomial" [] = Return st /\
    Stats.variance st = 2.5 /\
    Stats.stdDev st = sqrt 2.5 /\
    (Stats.stdDev st >=? 0) = true.
Proof.
  eexists. split; [vm_compute; reflexivity|].
  destruct (@C9_stdDev_is_sqrt_of_variance Reference.host "binomial" []
              {| Stats.mean := 5; Stats.variance := 2.5; Stats.stdDev := sqrt 2.5 |}
              ltac:(vm_compute; reflexivity)) as (Hs & Hp & _).
  split; [reflexivity|]. split; [exact Hs|]. apply Hp. vm_compute; reflexivity.
Defined.

(** C2 at a concrete request: mu = 2, sigma = 3 gives the variance 4 and the
    standard deviation 2, not 9 and 3. *)
Example normal_2_3_statistics :
  exists body,
    Reference.handler "normal" [("mu", "2"); ("sigma", "3")] = Return (Ok body) /\
    stats body = {| Stats.mean := 2; Stats.variance := 4; Stats.stdDev := 2 |}.
Proof. eexists. split; vm_compute; reflexivity. Qed.

(** * Further properties of the code *)

(** ** Further facts about numbers *)

(** [<=] is transitive (NaN is not related to anything). *)
Lemma SFleb_trans x y z : SFleb x y = true -> SFleb y z = true -> SFleb x z = true.
Proof.
  unfold SFleb, SFcompare.
  destruct x as [sx|sx| |sx mx ex], y as [sy|sy| |sy my ey], z as [sz|sz| |sz mz ez];
    try destruct sx; try destruct sy; try destruct sz; try discriminate; try reflexivity;
    change (Pos.compare_cont Eq ?a ?b) with (Pos.compare a b);
    repeat match goal with
    | |- context [Z.compare ?a ?b] => destruct (Z.compare_spec a b)
    | |- context [Pos.compare ?a ?b] => destruct (Pos.compare_spec a b)
    end; cbn; try discriminate; try reflexivity; intros; exfalso; lia.
Qed.

Lemma leb_trans (x y z : number) : (x <=? y) = true -> (y <=? z) = true -> (x <=? z) = true.
Proof. rewrite !leb_spec. apply SFleb_trans. Qed.

Lemma SFeqb_refl_finite s m e : SFeqb (S754_finite s m e) (S754_finite s m e) = true.
Proof.
  unfold SFeqb. destruct s; cbn [SFcompare]; rewrite Z.compare_refl;
    change (Pos.compare_cont Eq m m) with (Pos.compare m m);
    rewrite Pos.compare_refl; reflexivity.
Qed.

(** NaN is the one number that differs from itself. *)
Lemma is_nan_spec (x : number) : is_nan x = true <-> Prim2SF x = S754_nan.
Proof.
  unfold is_nan. rewrite FloatAxioms.eqb_spec.
  destruct (Prim2SF x) as [s|s| |s m e]; try destruct s; try rewrite SFeqb_refl_finite;
    cbn; split; intros H; try discriminate; reflexivity.
Qed.

(** A number that is [>= 0] is [<=] itself. *)
Lemma leb_refl_nonneg (x : number) : (0 <=? x) = true -> (x <=? x) = true.
Proof.
  intros H. apply nonneg_shape_of in H. rewrite leb_spec.
  inversion H as [s E|E|m e B E]; try reflexivity. apply SFleb_refl_finite.
Qed.

(** NaN is absorbing for [+] and for [/]. *)
Lemma add_nan_l (a b : number) : is_nan a = true -> is_nan (a + b) = true.
Proof. rewrite !is_nan_spec, add_spec. intros ->. reflexivity. Qed.

Lemma add_nan_r (a b : number) : is_nan b = true -> is_nan (a + b) = true.
Proof.
  rewrite !is_nan_spec, add_spec. intros ->.
  destruct (Prim2SF a) as [s|s| |s m e]; reflexivity.
Qed.

Lemma div_nan_r (a t : number) : is_nan t = true -> is_nan (a / t) = true.
Proof.
  rewrite !is_nan_spec, div_spec. intros ->.
  destruct (Prim2SF a) as [s|s| |s m e]; reflexivity.
Qed.

(** A number [>= 0] divided by [+Infinity] is a zero, unless it is infinite
    itself, when the quotient is NaN. *)
Lemma div_infinity (a : number) :
  (0 <=? a) = true ->
  (a / infinity =? 0) = true \/ is_nan (a / infinity) = true.
Proof.
  intros Ha. apply nonneg_shape_of in Ha.
  inversion Ha as [s E|E|m e B E].
  - left. rewrite FloatAxioms.eqb_spec, div_spec, <- E. destruct s; reflexivity.
  - right. apply is_nan_spec. rewrite div_spec, <- E. reflexivity.
  - left. rewrite FloatAxioms.eqb_spec, div_spec, <- E. reflexivity.
Qed.

(** A number [>= 0] divided by a positive finite number is [>= 0]. *)
Lemma div_nonneg (a t : number) :
  (0 <=? a) = true -> (0 <? t) = true -> (t <? infinity) = true ->
  (0 <=? a / t) = true.
Proof.
  intros Ha Ht Hf. destruct (positive_finite_shape t Ht Hf) as (mt & et & Et & _).
  rewrite leb_spec, div_spec, Et, Prim2SF_zero.
  apply SFdiv_nonneg. now apply nonneg_shape_of.
Qed.

(** The shape of a finite number other than zero. *)
Lemma finite_nonzero_shape (t : number) :
  (t =? 0) = false -> (abs t <? infinity) = true ->
  exists s m e, Prim2SF t = S754_finite s m e /\ bounded prec emax m e = true.
Proof.
  rewrite FloatAxioms.eqb_spec, ltb_spec, abs_spec, Prim2SF_zero, Prim2SF_infinity.
  pose proof (Prim2SF_valid t) as V.
  destruct (Prim2SF t) as [s|s| |s m e]; try discriminate; intros _ _.
  exists s, m, e. split; [reflexivity|exact V].
Qed.

(** A finite number other than zero divided by itself is exactly 1, whatever
    its sign. *)
Lemma div_self_signed (t : number) :
  (t =? 0) = false -> (abs t <? infinity) = true -> t / t = 1.
Proof.
  intros Hz Hf. destruct (finite_nonzero_shape t Hz Hf) as (s & m & e & Et & Bt).
  apply Prim2SF_inj. rewrite div_spec, Et, Prim2SF_one.
  apply SFdiv_self. now apply Zpos_lt_pow53 with (e := e).
Qed.

(** *** The sign of a difference *)

(** Rounding a non-negative mantissa with the sign bit clear yields [+0], a
    positive number or [+Infinity]. *)
Lemma binary_round_aux_shape m e l :
  (0 <= m)%Z ->
  binary_round_aux prec emax false m e l = S754_zero false \/
  binary_round_aux prec emax false m e l = S754_infinity false \/
  exists m' e', binary_round_aux prec emax false m e l = S754_finite false m' e'.
Proof.
  intros H. unfold binary_round_aux.
  pose proof (shr_fexp_nonneg m e l H) as H1.
  destruct (shr_fexp prec emax m e l) as [mrs' e1]. cbn [fst] in H1.
  pose proof (shr_fexp_nonneg _ e1 loc_Exact
                (round_nearest_even_nonneg _ (loc_of_shr_record mrs') H1)) as H2.
  destruct (shr_fexp prec emax _ e1 loc_Exact) as [mrs'' e2]. cbn [fst] in H2.
  destruct (shr_m mrs''); try lia; [now left|].
  destruct (e2 <=? emax - prec)%Z; eauto.
Qed.

(** Between negative numbers the order of the magnitudes is reversed. *)
Lemma SFleb_finite_neg p e p' e' :
  SFleb (S754_finite true p e) (S754_finite true p' e') =
  SFleb (S754_finite false p' e') (S754_finite false p e).
Proof.
  unfold SFleb. cbn [SFcompare].
  change (Pos.compare_cont Eq ?a ?b) with (Pos.compare a b).
  destruct (Z.compare_spec e e'), (Z.compare_spec e' e); try lia; try reflexivity.
  destruct (Pos.compare_spec p p'), (Pos.compare_spec p' p); try lia; reflexivity.
Qed.

(** [b - a] for finite [a <= b]: the exact difference of the aligned
    mantissas is not negative, so the rounded difference is [+0], positive
    or [+Infinity]. *)
Lemma reciprocal_nonneg d :
  d = S754_zero false \/ d = S754_infinity false \/
  (exists m e, d = S754_finite false m e) ->
  SFleb (S754_zero false) (SF64div (S754_finite false 4503599627370496 (-52)) d) = true.
Proof.
  intros [->|[->|(m & e & ->)]]; try reflexivity.
  apply SFdiv_nonneg. constructor. reflexivity.
Qed.

Lemma SFsub_finite_le sa ma ea sb mb eb :
  bounded prec emax ma ea = true -> bounded prec emax mb eb = true ->
  SFleb (S754_finite sa ma ea) (S754_finite sb mb eb) = true ->
  SFleb (S754_zero false) (SF64div (S754_finite false 4503599627370496 (-52))
           (SF64sub (S754_finite sb mb eb) (S754_finite sa ma ea))) = true.
Proof.
  intros Ba Bb Hle. apply reciprocal_nonneg. unfold SF64sub, SFsub.
  pose proof (shl_align_spec mb eb (Z.min eb ea)) as Sb.
  pose proof (shl_align_spec ma ea (Z.min eb ea)) as Sa.
  destruct (shl_align mb eb (Z.min eb ea)) as [mb' eb'].
  destruct (shl_align ma ea (Z.min eb ea)) as [ma' ea'].
  destruct Sb as (Eb & Vb & _), Sa as (Ea & Va & _). cbn [fst].
  assert (HM : (0 <= cond_Zopp sb (Z.pos mb') - cond_Zopp sa (Z.pos ma'))%Z).
  { assert (K : forall m e m' e', bounded prec emax m e = true -> bounded prec emax m' e' = true ->
                SFleb (S754_finite false m e) (S754_finite false m' e') = true ->
                forall k, (k <= e)%Z -> (k <= e')%Z ->
                (Z.pos m * 2 ^ (e - k) <= Z.pos m' * 2 ^ (e' - k))%Z)
      by (intros; now apply canonical_value_le).
    replace eb' with (Z.min eb ea) in Vb by lia.
    replace ea' with (Z.min eb ea) in Va by lia.
    destruct sa, sb; cbn [cond_Zopp].
    - rewrite SFleb_finite_neg in Hle.
      pose proof (K _ _ _ _ Bb Ba Hle (Z.min eb ea) ltac:(lia) ltac:(lia)). lia.
    - lia.
    - discriminate Hle.
    - pose proof (K _ _ _ _ Ba Bb Hle (Z.min eb ea) ltac:(lia) ltac:(lia)). lia. }
  destruct (cond_Zopp sb (Z.pos mb') - cond_Zopp sa (Z.pos ma'))%Z as [|p|p]; try lia.
  - now left.
  - cbn [binary_normalize]. unfold binary_round.
    destruct (shl_align p _ _) as [mz ez].
    apply binary_round_aux_shape. lia.
Qed.

(** [1 / (b - a)] is [>= 0] whenever [a <= x <= b] for a finite [x] other
    than zero. *)
Lemma SFreciprocal_width_nonneg a x b :
  valid_binary a = true -> valid_binary b = true ->
  (exists s m e, x = S754_finite s m e) ->
  SFleb a x = true -> SFleb x b = true ->
  SFleb (S754_zero false) (SF64div (S754_finite false 4503599627370496 (-52))
           (SF64sub b a)) = true.
Proof.
  intros Va Vb (s & m & e & ->) Hax Hxb.
  pose proof (SFleb_trans _ _ _ Hax Hxb) as Hab.
  destruct a as [sa|sa| |sa ma ea], b as [sb|sb| |sb mb eb];
    try discriminate; try (now apply SFsub_finite_le);
    try (destruct sa, sb; try discriminate; reflexivity);
    try (destruct s, sa; discriminate); try (destruct s, sb; discriminate).
  - destruct s, sb; try discriminate. apply reciprocal_nonneg. right; right.
    cbn. eauto.
  - destruct s, sa; try discriminate. apply reciprocal_nonneg. right; right.
    cbn. eauto.
Qed.

(** Inside [a <= x <= b], for a finite [x] other than zero, the reciprocal
    of the width [b - a] is [>= 0] (it is [+Infinity] when [a = b]). *)
Lemma reciprocal_width_nonneg (a x b : number) :
  (x =? 0) = false -> (abs x <? infinity) = true ->
  (a <=? x) = true -> (x <=? b) = true ->
  (0 <=? 1 / (b - a)) = true.
Proof.
  intros Hz Hf Hax Hxb. destruct (finite_nonzero_shape x Hz Hf) as (s & m & e & Ex & _).
  rewrite leb_spec in Hax, Hxb. rewrite leb_spec, div_spec, sub_spec, Prim2SF_zero, Prim2SF_one.
  apply SFreciprocal_width_nonneg with (x := Prim2SF x); eauto using Prim2SF_valid.
Qed.



(** ** Further facts about [computeCDF] *)

Lemma computeCDF_by_total (pdfValues : list number) :
  computeCDF pdfValues = map (fun val => val / total pdfValues) (cumulative 0 pdfValues).
Proof. reflexivity. Qed.

Lemma total_fold (pdfValues : list number) :
  pdfValues <> [] -> total pdfValues = fold_left PrimFloat.add pdfValues 0.
Proof. apply last_cumulative. Qed.

Lemma total_nil : total [] = nan.
Proof. reflexivity. Qed.

Lemma last_computeCDF (pdfValues : list number) :
  pdfValues <> [] ->
  last (computeCDF pdfValues) nan = total pdfValues / total pdfValues.
Proof.
  intros H. rewrite computeCDF_by_total.
  now rewrite (last_map _ _ nan nan) by now apply cumulative_not_nil.
Qed.

(** In a non-decreasing sequence of numbers [>= 0] every element is [<=]
    the last one. *)
Lemma below_the_last (l : list number) (d : number) :
  Forall nonneg l -> non_decreasing l ->
  Forall (fun c => (c <=? last l d) = true) l.
Proof.
  induction l as [|x l IH]; intros F M; [constructor|].
  inversion F as [|? ? Hx F']; subst.
  destruct l as [|y l'].
  - constructor; [|constructor]. now apply leb_refl_nonneg.
  - destruct M as [Hxy M']. specialize (IH F' M').
    change (last (x :: y :: l') d) with (last (y :: l') d).
    constructor; [|exact IH].
    inversion IH as [|? ? Hy _]; subst. exact (leb_trans _ _ _ Hxy Hy).
Qed.

(** Once a running sum is NaN, it stays NaN. *)
Lemma cumulative_from_nan (l : list number) : forall s : number,
  is_nan s = true -> Forall (fun c => is_nan c = true) (cumulative s l).
Proof.
  induction l as [|p l IH]; intros s Hs; [constructor|].
  change (cumulative s (p :: l)) with ((s + p) :: cumulative (s + p) l).
  pose proof (add_nan_l s p Hs). constructor; auto.
Qed.

Lemma last_Forall {A : Type} (P : A -> Prop) (l : list A) (d : A) :
  l <> [] -> Forall P l -> P (last l d).
Proof.
  intros Hne F. rewrite Forall_forall in F. apply F.
  destruct (exists_last Hne) as (l' & a & ->). rewrite last_last.
  apply in_or_app. right. now left.
Qed.

(** A NaN among the densities makes the last running sum NaN. *)
Lemma total_nan (l : list number) : forall s : number,
  Exists (fun p => is_nan p = true) l ->
  is_nan (last (cumulative s l) nan) = true.
Proof.
  induction l as [|p l IH]; intros s H; [inversion H|].
  change (cumulative s (p :: l)) with ((s + p) :: cumulative (s + p) l).
  inversion H as [? ? Hp|? ? Hl]; subst.
  - apply (last_Forall (fun c => is_nan c = true) ((s + p) :: cumulative (s + p) l) nan);
      [discriminate|].
    pose proof (add_nan_r s p Hp). constructor; [assumption|].
    now apply cumulative_from_nan.
  - destruct l as [|p' l']; [inversion Hl|].
    change (last ((s + p) :: cumulative (s + p) (p' :: l')) nan)
      with (last (cumulative (s + p) (p' :: l')) nan).
    now apply IH.
Qed.

(** X10: non-negative densities with a positive finite total: every cumulative
    value lies between 0 and 1. *)
Theorem cdf_values_lie_between_0_and_1 (pdfValues : list number) :
  Forall nonneg pdfValues ->
  (0 <? total pdfValues) = true -> (total pdfValues <? infinity) = true ->
  Forall (fun c => (0 <=? c) = true /\ (c <=? 1) = true) (computeCDF pdfValues).
Proof.
  intros F Ht Hf.
  assert (Hne : pdfValues <> []) by (intros ->; discriminate Ht).
  destruct (cumulative_monotone pdfValues 0 nonneg_zero F) as [Fc Mc].
  apply non_decreasing_tail in Mc.
  pose proof (below_the_last _ nan Fc Mc) as B. fold (total pdfValues) in B.
  assert (T : nonneg (total pdfValues))
    by (apply (last_Forall nonneg); [now apply cumulative_not_nil|exact Fc]).
  rewrite computeCDF_by_total. apply Forall_map.
  rewrite Forall_forall in *. intros c Hc. split.
  - apply div_nonneg; auto. now apply Fc.
  - rewrite <- (div_self (total pdfValues) Ht Hf).
    apply div_le_mono; auto. now apply Fc.
Qed.

Lemma cdf_values_lie_between_0_and_1_witness :
  Forall (fun c => (0 <=? c) = true /\ (c <=? 1) = true) (computeCDF [0.25; 0; 3]).
Proof.
  apply (cdf_values_lie_between_0_and_1 [0.25; 0; 3]).
  - repeat (constructor; [reflexivity|]). constructor.
  - reflexivity.
  - reflexivity.
Defined.

(** X11: whenever the total is finite and not zero, the last cumulative value is
    exactly 1, also when some densities are negative. *)
Theorem last_cdf_value_is_1 (pdfValues : list number) :
  (total pdfValues =? 0) = false -> (abs (total pdfValues) <? infinity) = true ->
  last (computeCDF pdfValues) nan = 1.
Proof.
  intros Hz Hf.
  assert (Hne : pdfValues <> []) by (intros ->; discriminate Hf).
  rewrite (last_computeCDF _ Hne). now apply div_self_signed.
Qed.

Lemma last_cdf_value_is_1_witness : last (computeCDF [1; -3]) nan = 1.
Proof. apply (last_cdf_value_is_1 [1; -3]); reflexivity. Defined.

(** X12: one NaN among the densities makes the total NaN, and with it every
    cumulative value, also those before the NaN. *)
Theorem nan_density_poisons_every_cdf_value (pdfValues : list number) :
  Exists (fun p => is_nan p = true) pdfValues ->
  is_nan (total pdfValues) = true /\
  Forall (fun c => is_nan c = true) (computeCDF pdfValues).
Proof.
  intros H. pose proof (total_nan pdfValues 0 H) as T. fold (total pdfValues) in T.
  split; [exact T|]. rewrite computeCDF_by_total. apply Forall_map.
  apply Forall_forall. intros c _. now apply div_nan_r.
Qed.

Lemma nan_density_poisons_every_cdf_value_witness :
  is_nan (total [1; nan; 2]) = true /\
  Forall (fun c => is_nan c = true) (computeCDF [1; nan; 2]).
Proof.
  apply (nan_density_poisons_every_cdf_value [1; nan; 2]).
  apply Exists_cons_tl, Exists_cons_hd. reflexivity.
Defined.

(** X13: non-negative densities whose total overflows to [+Infinity]: every
    cumulative value is a zero or NaN, and the last one is NaN. *)
Theorem infinite_total_gives_zeros_and_nan (pdfValues : list number) :
  Forall nonneg pdfValues -> total pdfValues = infinity ->
  Forall (fun c => (c =? 0) = true \/ is_nan c = true) (computeCDF pdfValues) /\
  is_nan (last (computeCDF pdfValues) nan) = true.
Proof.
  intros F Ht.
  assert (Hne : pdfValues <> []) by (intros ->; discriminate Ht).
  destruct (cumulative_monotone pdfValues 0 nonneg_zero F) as [Fc _].
  split.
  - rewrite computeCDF_by_total, Ht. apply Forall_map.
    revert Fc. apply Forall_impl. intros c Hc. now apply div_infinity.
  - rewrite (last_computeCDF _ Hne), Ht. reflexivity.
Qed.

Lemma infinite_total_gives_zeros_and_nan_witness :
  Forall (fun c => (c =? 0) = true \/ is_nan c = true) (computeCDF [1; infinity; 2]) /\
  is_nan (last (computeCDF [1; infinity; 2]) nan) = true.
Proof.
  apply (infinite_total_gives_zeros_and_nan [1; infinity; 2]).
  - repeat (constructor; [reflexivity|]). constructor.
  - reflexivity.
Defined.

(** ** Further facts about [mapM] *)

Lemma mapM_Throw_In {A B : Type} (f : A -> outcome B) (l : list A) (e : exn) :
  mapM f l = Throw e -> exists a, In a l /\ f a = Throw e.
Proof.
  induction l as [|x l IH]; simpl; intros H; [discriminate|].
  destruct (f x) as [b| |] eqn:Fx; simpl in H; try discriminate.
  - destruct (mapM f l) as [bs| |]; simpl in H; try discriminate.
    destruct IH as (a & Ha & Fa); [congruence|]. exists a. split; [now right|exact Fa].
  - exists x. split; [now left|congruence].
Qed.

Lemma mapM_ext_in {A B : Type} (f g : A -> outcome B) (l : list A) :
  (forall a, In a l -> f a = g a) -> mapM f l = mapM g l.
Proof.
  induction l as [|x l IH]; intros H; [reflexivity|].
  simpl. rewrite (H x (or_introl eq_refl)), IH; [reflexivity|].
  intros a Ha. apply H. now right.
Qed.

(** A callback that never throws: [mapM] is [map]. *)
Lemma mapM_Return_map {A B : Type} (g : A -> B) (l : list A) :
  mapM (fun a => Return (g a)) l = Return (map g l).
Proof. induction l as [|x l IH]; simpl; [reflexivity|]. now rewrite IH. Qed.

Section Requests.
Context {host : Host}.

(** ** Which names are registered *)

Lemma registered_iff_kind (type : string) :
  (exists d, assoc type distributions = Some d) <->
  existsb (String.eqb type) kinds = true.
Proof.
  split.
  - intros [d H].
    destruct (registered_kinds _ _ H) as [[-> _]|[[-> _]|[[-> _]|[[-> _]|[[-> _]|[[-> _]|[-> _]]]]]]];
      reflexivity.
  - intros H. unfold kinds in H. cbn [existsb] in H.
    repeat (apply orb_true_iff in H as [H|H];
            [apply String.eqb_eq in H; subst; eexists; reflexivity|]).
    discriminate.
Qed.

Lemma unregistered_iff_no_kind (type : string) :
  assoc type distributions = None <-> existsb (String.eqb type) kinds = false.
Proof.
  pose proof (registered_iff_kind type) as R. split; intros H.
  - destruct R as [_ R].
    destruct (existsb (String.eqb type) kinds); [|reflexivity].
    destruct (R eq_refl) as [d K]. congruence.
  - destruct (assoc type distributions) as [d|] eqn:E; [|reflexivity].
    assert (K : existsb (String.eqb type) kinds = true) by (apply R; eauto).
    congruence.
Qed.

(** No registered name is a member of [Object.prototype]. *)
Lemma inherited_not_registered (type : string) :
  existsb (String.eqb type) Object_prototype_keys = true ->
  assoc type distributions = None.
Proof.
  intros H. unfold Object_prototype_keys in H. cbn [existsb] in H.
  repeat (apply orb_true_iff in H as [H|H];
          [apply String.eqb_eq in H; subst; reflexivity|]).
  discriminate.
Qed.

(** A request for an inherited name gets past the guard and fails at the
    first call of [pdf]. *)
Lemma handler_inherited (type : string) (query : list (string * string)) :
  existsb (String.eqb type) Object_prototype_keys = true ->
  handler type query = Throw (TypeError "distributions[type].pdf is not a function").
Proof.
  intros H. pose proof (inherited_not_registered _ H) as E.
  unfold handler, distributions_at. rewrite E, H, sample_points_steps, bind_Return.
  destruct (is_discrete type); reflexivity.
Qed.

(** The only exception a density throws is a [TypeError]. *)
Lemma pdf_throws_TypeError (type : string) (d : Dist.Descriptor) (x : number)
    (params : list number) (e : exn) :
  assoc type distributions = Some d -> Dist.pdf d x params = Throw e ->
  exists message, e = TypeError message.
Proof.
  intros H T.
  destruct (string_dec type "binomial") as [->|Hb].
  - assert (E : assoc "binomial" distributions = Some binomial) by reflexivity.
    assert (d = binomial) by congruence. subst d.
    change (Dist.pdf binomial x params) with
      (c <- math_combinations (arg params 0 10) x ;;
       Return (c * Math_pow (arg params 1 0.5) x *
               Math_pow (1 - arg params 1 0.5) (arg params 0 10 - x))) in T.
    unfold math_combinations in T.
    repeat match type of T with context [if ?b then _ else _] => destruct b end;
      cbn in T; inversion T; eauto.
  - destruct (pdf_total_except_binomial type d H Hb x params) as [v E]. congruence.
Qed.

(** Every request ends in one of three ways: a 200 response, the 400
    response, or a [TypeError] that escapes the handler. *)
Lemma handler_outcome (type : string) (query : list (string * string)) :
  (exists body, handler type query = Return (Ok body)) \/
  handler type query = Return (BadRequest "Invalid distribution type") \/
  (exists message, handler type query = Throw (TypeError message)).
Proof.
  destruct (assoc type distributions) as [d|] eqn:E.
  - rewrite (handler_registered _ _ _ E), sample_points_steps, bind_Return.
    pose proof (mapM_fuel (fun x => Dist.pdf d x (request_params query))
                  (if is_discrete type then steps 0 1 20 else steps (-5) 0.1 100)
                  (fun x => pdf_fuel type d x _ E)) as F.
    destruct (mapM _ _) as [ps|e|] eqn:M; cbn [bind]; [eauto| |congruence].
    right; right. apply mapM_Throw_In in M as (a & _ & T).
    destruct (pdf_throws_TypeError _ _ _ _ _ E T) as [message ->]. eauto.
  - destruct (existsb (String.eqb type) Object_prototype_keys) eqn:P.
    + right; right. rewrite (handler_inherited _ _ P). eauto.
    + right; left. apply handler_unknown_kind; [|exact P].
      now apply unregistered_iff_no_kind.
Qed.


(** ** Which requests are answered, rejected, or fail *)

(** X1: every registered kind other than binomial is answered with a 200
    response, whatever the query holds (also values that do not parse). *)
Theorem kinds_other_than_binomial_are_always_answered
    (type : string) (query : list (string * string)) :
  existsb (String.eqb type) kinds = true -> String.eqb type "binomial" = false ->
  exists body, handler type query = Return (Ok body).
Proof.
  intros K B. apply registered_iff_kind in K as [d E].
  apply (handler_total_except_binomial type d query E).
  intros ->. discriminate B.
Qed.


(** X3: every member of [Object.prototype] passes the guard: the request is not
    rejected, it fails with a [TypeError] at the first call of [pdf]. *)
Theorem inherited_names_throw (type : string) (query : list (string * string)) :
  existsb (String.eqb type) Object_prototype_keys = true ->
  handler type query = Throw (TypeError "distributions[type].pdf is not a function").
Proof. apply handler_inherited. Qed.

(** X4: the 400 response is given exactly for the names that are neither
    registered nor inherited from [Object.prototype]. *)
Theorem bad_request_iff_unknown_name (type : string) (query : list (string * string)) :
  handler type query = Return (BadRequest "Invalid distribution type") <->
  existsb (String.eqb type) kinds = false /\
  existsb (String.eqb type) Object_prototype_keys = false.
Proof.
  split.
  - intros H. split.
    + apply unregistered_iff_no_kind.
      destruct (assoc type distributions) as [d|] eqn:E; [exfalso|reflexivity].
      rewrite (handler_registered _ _ _ E), sample_points_steps, bind_Return in H.
      destruct (mapM _ _); discriminate H.
    + destruct (existsb (String.eqb type) Object_prototype_keys) eqn:P; [|reflexivity].
      rewrite (handler_inherited _ _ P) in H. discriminate H.
  - intros [K P]. now apply handler_unknown_kind.
Qed.


(** ** The shape of a 200 response *)


(** X7: the two formula strings of a 200 response are those of the kind: they
    do not depend on the query and are not empty. *)
Theorem formula_strings_depend_on_the_kind_only
    (type : string) (query query' : list (string * string)) (body body' : Payload) :
  handler type query = Return (Ok body) ->
  handler type query' = Return (Ok body') ->
  pdfExpression body = pdfExpression body' /\
  cdfExpression body = cdfExpression body' /\
  pdfExpression body <> "" /\ cdfExpression body <> "".
Proof.
  intros H H'.
  destruct (handler_Ok _ _ _ H) as (d & E & _ & _ & _ & _ & -> & ->).
  destruct (handler_Ok _ _ _ H') as (d' & E' & _ & _ & _ & _ & -> & ->).
  assert (d' = d) by congruence. subst d'.
  split; [reflexivity|]. split; [reflexivity|].
  destruct (registered_kinds _ _ E) as [[_ ->]|[[_ ->]|[[_ ->]|[[_ ->]|[[_ ->]|[[_ ->]|[_ ->]]]]]]];
    split; discriminate.
Qed.

(** ** How the query reaches the functions *)

Lemma handler_params (type : string) (query query' : list (string * string)) :
  request_params query = request_params query' ->
  handler type query = handler type query'.
Proof. intros H. unfold handler. rewrite H. reflexivity. Qed.

(** X8: the names of the query keys play no part: two queries with the same
    values in the same order get the same outcome. *)
Theorem key_names_do_not_matter (type : string) (query query' : list (string * string)) :
  NoDup (Object_keys query) -> NoDup (Object_keys query') ->
  map snd query = map snd query' ->
  handler type query = handler type query'.
Proof.
  intros N N' H. apply handler_params.
  now rewrite (request_params_values _ N), (request_params_values _ N'), H.
Qed.

Lemma shorter_defaults (type : string) :
  (List.length (mean_defaults type) <= List.length (pdf_defaults type))%nat /\
  (List.length (variance_defaults type) <= List.length (pdf_defaults type))%nat.
Proof.
  unfold mean_defaults, variance_defaults, pdf_defaults.
  repeat match goal with
  | |- context [String.eqb type ?k] => destruct (String.eqb type k)
  end; simpl; lia.
Qed.

Lemma completed_full (params defaults extra : list number) :
  (List.length defaults <= List.length params)%nat ->
  completed params defaults extra = (params ++ extra)%list.
Proof.
  intros H. unfold completed. now rewrite skipn_all2, app_nil_r.
Qed.

(** X9: once every parameter of the kind's density has a value, further query
    values change nothing in the outcome. *)
Theorem values_beyond_the_parameters_are_ignored
    (type : string) (query extra : list (string * string)) :
  NoDup (Object_keys (query ++ extra)%list) ->
  (List.length (pdf_defaults type) <= List.length query)%nat ->
  handler type (query ++ extra)%list = handler type query.
Proof.
  intros N L.
  assert (Nq : NoDup (Object_keys query)).
  { unfold Object_keys in *. rewrite map_app in N. now apply NoDup_app_remove_r in N. }
  pose proof (request_params_values _ N) as P.
  pose proof (request_params_values _ Nq) as Pq.
  rewrite !map_app, <- Pq in P.
  set (more := map parseFloat (map snd extra)) in P.
  assert (Lp : (List.length (pdf_defaults type) <= List.length (request_params query))%nat)
    by (rewrite Pq, !length_map; exact L).
  destruct (shorter_defaults type) as [Lm Lv].
  destruct (assoc type distributions) as [d|] eqn:E.
  - destruct (defaults_and_extras type d (request_params query) more E) as (Hp & Hm & Hv).
    rewrite completed_full in Hm by lia. rewrite completed_full in Hv by lia.
    rewrite !(handler_registered _ _ _ E), P, Hm, Hv.
    destruct (sample_points type) as [xs| |]; cbn [bind]; try reflexivity.
    rewrite (mapM_ext_in _ (fun x => Dist.pdf d x (request_params query))); [reflexivity|].
    intros x _. specialize (Hp x). now rewrite completed_full in Hp by lia.
  - destruct (existsb (String.eqb type) Object_prototype_keys) eqn:Pr.
    + now rewrite !(handler_inherited _ _ Pr).
    + unfold handler, distributions_at. rewrite E, Pr. reflexivity.
Qed.

(** ** The uniform kind *)

(** No continuous sample point is zero, infinite or NaN. *)
Lemma continuous_samples_finite_nonzero :
  Forall (fun x => (x =? 0) = false /\ (abs x <? infinity) = true) (steps (-5) 0.1 100).
Proof.
  apply Forall_forall. intros x Hx.
  assert (H : forallb (fun x => negb (x =? 0) && (abs x <? infinity)) (steps (-5) 0.1 100) = true)
    by (vm_compute; reflexivity).
  rewrite forallb_forall in H. specialize (H x Hx).
  apply andb_true_iff in H as [H1 H2]. now apply negb_true_iff in H1.
Qed.

(** The densities of a uniform request. *)
Lemma uniform_response (query : list (string * string)) :
  exists body,
    handler "uniform" query = Return (Ok body) /\
    pdfValues body =
      map (fun x => if (x >=? arg (request_params query) 0 0) &&
                       (x <=? arg (request_params query) 1 1)
                    then 1 / (arg (request_params query) 1 1 - arg (request_params query) 0 0)
                    else 0)
          (steps (-5) 0.1 100) /\
    cdfValues body = computeCDF (pdfValues body).
Proof.
  rewrite (handler_registered "uniform" uniform query eq_refl), sample_points_steps, bind_Return.
  change (is_discrete "uniform") with false. cbv iota.
  change (fun x => Dist.pdf uniform x (request_params query)) with
    (fun x => Return (if (x >=? arg (request_params query) 0 0) &&
                         (x <=? arg (request_params query) 1 1)
                      then 1 / (arg (request_params query) 1 1 - arg (request_params query) 0 0)
                      else 0)).
  rewrite mapM_Return_map, bind_Return. eexists. repeat split.
Qed.

(** A total that is [>= 0] is a zero, positive and finite, or [+Infinity]. *)
Lemma nonneg_cases (t : number) :
  (0 <=? t) = true ->
  (t =? 0) = true \/ ((0 <? t) = true /\ (t <? infinity) = true) \/ t = infinity.
Proof.
  intros H. apply nonneg_shape_of in H.
  rewrite FloatAxioms.eqb_spec, !ltb_spec, Prim2SF_zero, Prim2SF_infinity.
  inversion H as [s E|E|m e B E].
  - left. reflexivity.
  - right; right. apply Prim2SF_inj. now rewrite <- E.
  - right; left. split; reflexivity.
Qed.

(** X14: every sampled density of a uniform request is [>= 0], whatever the
    bounds are; so the cumulative values are either non-decreasing and end
    at exactly 1, or all NaN (total 0: no sample point inside
    the bounds), or zeros followed by NaN (total [+Infinity]: equal bounds at
    a sample point). *)
Theorem uniform_response_is_a_cdf_or_nan (query : list (string * string)) :
  exists body,
    handler "uniform" query = Return (Ok body) /\
    Forall nonneg (pdfValues body) /\
    ((non_decreasing (cdfValues body) /\ last (cdfValues body) nan = 1) \/
     ((total (pdfValues body) =? 0) = true /\
      Forall (fun c => is_nan c = true) (cdfValues body)) \/
     (total (pdfValues body) = infinity /\
      Forall (fun c => (c =? 0) = true \/ is_nan c = true) (cdfValues body))).
Proof.
  destruct (uniform_response query) as (body & H & Hp & Hc).
  exists body. split; [exact H|].
  assert (F : Forall nonneg (pdfValues body)).
  { rewrite Hp. apply Forall_map.
    generalize continuous_samples_finite_nonzero. apply Forall_impl.
    intros x [Hz Hf]. unfold nonneg.
    destruct ((x >=? _) && (x <=? _)) eqn:G; [|reflexivity].
    apply andb_true_iff in G as [Ga Gb]. unfold geb in Ga.
    now apply reciprocal_width_nonneg with (x := x). }
  split; [exact F|]. rewrite Hc.
  assert (Hne : pdfValues body <> []) by (rewrite Hp; discriminate).
  destruct (cumulative_monotone (pdfValues body) 0 nonneg_zero F) as [Fc _].
  assert (T : nonneg (total (pdfValues body)))
    by (apply (last_Forall nonneg); [now apply cumulative_not_nil|exact Fc]).
  destruct (nonneg_cases _ T) as [Z|[[P I]|I]].
  - right; left. split; [exact Z|].
    apply computeCDF_zero_total; [exact F|]. now rewrite <- total_fold.
  - left. rewrite (total_fold _ Hne) in P, I.
    now apply computeCDF_monotone.
  - right; right. split; [exact I|].
    rewrite computeCDF_by_total, I. apply Forall_map.
    revert Fc. apply Forall_impl. intros c Hc'. now apply div_infinity.
Qed.

Lemma all_zero_total (l : list number) :
  Forall (fun p => p = 0) l -> fold_left PrimFloat.add l 0 = 0.
Proof.
  induction l as [|p l IH]; intros F; [reflexivity|].
  inversion F as [|? ? -> F']; subst. simpl.
  change (0 + 0) with 0. now apply IH.
Qed.

(** X15: a uniform request whose bounds are not ordered [a <= b] (swapped
    bounds, or a bound that does not parse) has no sample point inside them:
    every density is 0 and every cumulative value is NaN. *)
Theorem uniform_bounds_out_of_order (query : list (string * string)) :
  (arg (request_params query) 0 0 <=? arg (request_params query) 1 1) = false ->
  exists body,
    handler "uniform" query = Return (Ok body) /\
    Forall (fun p => p = 0) (pdfValues body) /\
    Forall (fun c => is_nan c = true) (cdfValues body).
Proof.
  intros O. destruct (uniform_response query) as (body & H & Hp & Hc).
  exists body. split; [exact H|].
  assert (Z : Forall (fun p => p = 0) (pdfValues body)).
  { rewrite Hp. apply Forall_map, Forall_forall. intros x _.
    destruct ((x >=? _) && (x <=? _)) eqn:G; [exfalso|reflexivity].
    apply andb_true_iff in G as [Ga Gb]. unfold geb in Ga.
    rewrite (leb_trans _ _ _ Ga Gb) in O. discriminate O. }
  split; [exact Z|]. rewrite Hc. apply computeCDF_zero_total.
  - revert Z. apply Forall_impl. intros p ->. reflexivity.
  - now rewrite all_zero_total.
Qed.

(** ** The one-sided kinds *)

(** The first 51 continuous sample points are negative. *)
Lemma negative_samples :
  Forall (fun x => (x >=? 0) = false) (firstn 51 (steps (-5) 0.1 100)).
Proof.
  apply Forall_forall. intros x Hx.
  assert (H : forallb (fun x => negb (x >=? 0)) (firstn 51 (steps (-5) 0.1 100)) = true)
    by (vm_compute; reflexivity).
  rewrite forallb_forall in H. specialize (H x Hx). now apply negb_true_iff in H.
Qed.

Lemma map_zero_below (f : number -> number) (l : list number) :
  Forall (fun x => (x >=? 0) = false) l ->
  map (fun x => if x >=? 0 then f x else 0) l = repeat 0 (List.length l).
Proof.
  induction l as [|x l IH]; intros F; [reflexivity|].
  inversion F as [|? ? Hx F']; subst. simpl. rewrite Hx. f_equal. now apply IH.
Qed.

(** X16: the exponential and rayleigh densities vanish at every sample point
    below zero, whatever the parameters (also NaN): the first 51 of the 100
    densities are exactly 0.  The 51st sample point is the rounded sum
    -1.0269562977782698e-15, so no density is taken at 0 itself. *)
Theorem one_sided_kinds_vanish_below_zero (query : list (string * string)) :
  (exists body, handler "exponential" query = Return (Ok body) /\
                firstn 51 (pdfValues body) = repeat 0 51 /\
                nth 50 (xValues body) 0 = -1.0269562977782698e-15) /\
  (exists body, handler "rayleigh" query = Return (Ok body) /\
                firstn 51 (pdfValues body) = repeat 0 51 /\
                nth 50 (xValues body) 0 = -1.0269562977782698e-15).
Proof.
  split.
  - rewrite (handler_registered "exponential" exponential query eq_refl),
      sample_points_steps, bind_Return.
    change (is_discrete "exponential") with false. cbv iota.
    change (fun x => Dist.pdf exponential x (request_params query)) with
      (fun x => Return (if x >=? 0
                        then arg (request_params query) 0 1 *
                             Math_exp (- arg (request_params query) 0 1 * x)
                        else 0)).
    rewrite mapM_Return_map, bind_Return. eexists. split; [reflexivity|].
    cbn [pdfValues xValues]. split; [|vm_compute; reflexivity].
    rewrite firstn_map, (map_zero_below _ _ negative_samples). reflexivity.
  - rewrite (handler_registered "rayleigh" rayleigh query eq_refl),
      sample_points_steps, bind_Return.
    change (is_discrete "rayleigh") with false. cbv iota.
    change (fun x => Dist.pdf rayleigh x (request_params query)) with
      (fun x => Return (if x >=? 0
                        then (x / Math_pow (arg (request_params query) 0 1) 2) *
                             Math_exp (- (Math_pow x 2) /
                                       (2 * Math_pow (arg (request_params query) 0 1) 2))
                        else 0)).
    rewrite mapM_Return_map, bind_Return. eexists. split; [reflexivity|].
    cbn [pdfValues xValues]. split; [|vm_compute; reflexivity].
    rewrite firstn_map, (map_zero_below _ _ negative_samples). reflexivity.
Qed.

(** ** Statistics *)

(** X17: [computeStatistics] has no guard of its own: it returns for the seven
    registered names and throws a [TypeError] for every other name. *)
Theorem computeStatistics_returns_iff_registered (type : string) (params : list number) :
  ((exists st, computeStatistics type params = Return st) <->
   existsb (String.eqb type) kinds = true) /\
  ((exists message, computeStatistics type params = Throw (TypeError message)) <->
   existsb (String.eqb type) kinds = false).
Proof.
  pose proof (registered_iff_kind type) as R.
  pose proof (unregistered_iff_no_kind type) as U.
  unfold computeStatistics, distributions_at.
  destruct (assoc type distributions) as [d|] eqn:E.
  - assert (K : existsb (String.eqb type) kinds = true) by (apply R; eauto).
    rewrite K. split; split; intros H; try reflexivity; eauto.
    + destruct H. discriminate.
    + discriminate.
  - assert (K : existsb (String.eqb type) kinds = false) by now apply U.
    rewrite K.
    destruct (existsb (String.eqb type) Object_prototype_keys);
      (split; split; intros H; try reflexivity; eauto;
       try (destruct H; discriminate); try discriminate).
Qed.

End Requests.

(** ** The further properties on concrete requests (reference host) *)

(** A laplacian request whose only value does not parse is answered. *)
Lemma kinds_other_than_binomial_are_always_answered_witness :
  exists body, Reference.handler "laplacian" [("mu", "abc")] = Return (Ok body).
Proof.
  apply (@kinds_other_than_binomial_are_always_answered Reference.host
           "laplacian" [("mu", "abc")]); reflexivity.
Defined.

(** The request [GET /distribution/toString]. *)
Lemma inherited_names_throw_witness :
  Reference.handler "toString" [] =
  Throw (TypeError "distributions[type].pdf is not a function").
Proof.
  apply (@inherited_names_throw Reference.host "toString" []). reflexivity.
Defined.


(** Two normal requests with different parameters carry the same strings. *)
Lemma formula_strings_depend_on_the_kind_only_witness :
  exists body body',
    Reference.handler "normal" [] = Return (Ok body) /\
    Reference.handler "normal" [("mu", "1"); ("sigma", "2")] = Return (Ok body') /\
    pdfExpression body = pdfExpression body' /\
    cdfExpression body = cdfExpression body' /\
    pdfExpression body <> "" /\ cdfExpression body <> "".
Proof.
  eexists. eexists. split; [vm_compute; reflexivity|]. split; [vm_compute; reflexivity|].
  apply (@formula_strings_depend_on_the_kind_only Reference.host "normal"
           [] [("mu", "1"); ("sigma", "2")]); vm_compute; reflexivity.
Defined.

(** The bounds 1 and 2 of a uniform request under two pairs of key names. *)
Lemma key_names_do_not_matter_witness :
  Reference.handler "uniform" [("a", "1"); ("b", "2")] =
  Reference.handler "uniform" [("lower", "1"); ("upper", "2")].
Proof.
  apply (@key_names_do_not_matter Reference.host "uniform"
           [("a", "1"); ("b", "2")] [("lower", "1"); ("upper", "2")]).
  - repeat constructor; simpl; intuition discriminate.
  - repeat constructor; simpl; intuition discriminate.
  - reflexivity.
Defined.

(** An exponential request with a second value. *)
Lemma values_beyond_the_parameters_are_ignored_witness :
  Reference.handler "exponential" [("lambda", "2"); ("more", "7")] =
  Reference.handler "exponential" [("lambda", "2")].
Proof.
  apply (@values_beyond_the_parameters_are_ignored Reference.host "exponential"
           [("lambda", "2")] [("more", "7")]).
  - repeat constructor; simpl; intuition discriminate.
  - simpl. lia.
Defined.

(** The uniform request with the bounds 3 and 1. *)
Lemma uniform_bounds_out_of_order_witness :
  exists body,
    Reference.handler "uniform" [("a", "3"); ("b", "1")] = Return (Ok body) /\
    Forall (fun p => p = 0) (pdfValues body) /\
    Forall (fun c => is_nan c = true) (cdfValues body).
Proof.
  apply (@uniform_bounds_out_of_order Reference.host [("a", "3"); ("b", "1")]).
  vm_compute; reflexivity.
Defined.
